(** * terraform-provider-remote: the lifecycle proxy of [remote_resource]

    A shallow embedding of the provider's Go code (package [remote]: the
    Lambda invoker, the schema cache, the argument merger, the four
    lifecycle operations and the plan-time diff hook), followed by the
    properties that its specification states about them.

    Conventions of the embedding:
    - a Go [interface{}] holding decoded JSON or a host attribute is a
      [value]; a [map[string]interface{}] is a [gmap string value], and a
      map variable that may be [nil] is a [gomap] ([None] is [nil]);
    - a Go [error] is its message; a function returning [(T, error)] returns
      a [res T]; [diag.Diagnostics] is an optional error;
    - the libraries the package calls ([encoding/json], [gojsonschema], the
      [os], [fmt], the host's [ResourceDiff.ForceNew]) are the fields of the
      class [Runtime], and the AWS Lambda client is the class [Service];
    - the operations run in a state-and-trace monad [M]: the state holds the
      [remoteClient] and the remote function's own state, the trace lists
      the remote calls, the schema checks and the forced replacements in
      the order in which the code performs them. *)

From stdpp Require Import gmap strings list fin_maps.
From stdpp Require Import pretty.
From Stdlib Require Import ZArith Ascii.

Set Warnings "-register-all,-clear-no-such-hyp".
Set Default Proof Using "Type".

(** ** Values, maps that may be nil, errors *)

Inductive value : Type :=
  | VNil
  | VBool (b : bool)
  | VNum (n : Z)
  | VStr (s : string)
  | VArr (l : list value)
  | VMap (m : gmap string value).

Abbreviation gomap := (option (gmap string value)).

Definition error : Type := string.

Inductive res (A : Type) : Type :=
  | Ok (a : A)
  | Err (e : error).
Arguments Ok {A} a.
Arguments Err {A} e.

Abbreviation diag := (option error).

(** [len(m)] and [m[k]] of a map that may be nil: a nil map reads as empty. *)
Definition gomap_len (m : gomap) : nat :=
  match m with
  | Some m => size m
  | None => 0
  end.

Definition gomap_get (m : gomap) (k : string) : option value :=
  match m with
  | Some m => m !! k
  | None => None
  end.

(** A map variable stored in an [interface{}]. *)
Definition gomap_value (m : gomap) : value :=
  match m with
  | Some m => VMap m
  | None => VNil
  end.

(** The type assertion [v.(string)], with its [ok] flag. *)
Definition as_string (v : value) : string * bool :=
  match v with
  | VStr s => (s, true)
  | _ => (""%string, false)
  end.

(** The zero value test behind the host's [GetOk]. *)
Definition is_zero (v : value) : bool :=
  match v with
  | VNil => true
  | VBool b => negb b
  | VNum n => Z.eqb n 0
  | VStr s => String.eqb s ""
  | VArr l => match l with [] => true | _ => false end
  | VMap m => bool_decide (m = ∅)
  end.

Definition nl : string := String "010"%char EmptyString.

(** ** Records of the package *)

Record lambdaSchemaResponse : Type := mkSchemaResponse {
  Request : gomap;
  Response : gomap
}.

Record lambdaPayload : Type := mkPayload {
  Action : string;
  Args : gomap;
  State : gomap;
  Store : gomap;
  Planning : bool
}.

Record lambdaResponse : Type := mkResponse {
  ID : string;
  Result : gomap;
  RStore : gomap;
  Replace : bool;
  Reason : string
}.

(** [once] is the done flag of the [sync.Once]; [schemas] is a pointer. *)
Record remoteClient : Type := mkClient {
  LambdaName : string;
  once : bool;
  schemas : option lambdaSchemaResponse;
  schemaErr : option error
}.

(** What [Svc.Invoke] returns: a transport error, or the output with its
    [FunctionError] pointer and its [Payload]. *)
Inductive InvokeResult : Type :=
  | InvokeErr (e : error)
  | InvokeOutput (FunctionError : option string) (Payload : string).

(** The host's [schema.ResourceData]: the id, the attributes, and whether the
    resource was created in this run. *)
Record ResourceData : Type := mkData {
  rd_id : string;
  rd_attrs : gmap string value;
  rd_isNew : bool
}.

(** The host's [schema.ResourceDiff]: planned attributes and prior ones. *)
Record ResourceDiff : Type := mkDiff {
  df_new : gmap string value;
  df_old : gmap string value
}.

(** ** The collaborators outside the package *)

Class Runtime : Type := {
  (** [json.Marshal] of a value *)
  json_Marshal : value → res string;
  (** [json.Unmarshal] into an [interface{}] *)
  json_Unmarshal : string → res value;
  (** what a [json.Unmarshal] that reports an error leaves in a map variable
      that held the given map: the decoder checks the syntax of the whole
      text before it stores anything, but a value that does not fit its Go
      type (a number out of the range of float64) is reported and skipped
      while the other members are stored *)
  json_Unmarshal_partial : string → gomap → gomap;
  (** [json.Unmarshal] into a zero [lambdaSchemaResponse], error dropped *)
  json_Unmarshal_schema : string → lambdaSchemaResponse;
  (** [gojsonschema.Validate]: an error, or the list of violations *)
  gojsonschema_Validate : gmap string value → value → res (list string);
  os_Getenv : string → string;
  (** [fmt.Sprintf("%v", v)] *)
  fmt_Sprint : value → string;
  (** [fmt.Errorf(format)] without operands: the text of the error, which
      is the format with its verbs rewritten *)
  fmt_Errorf : string → error;
  (** the host's [ResourceDiff.ForceNew] *)
  ForceNew : ResourceDiff → string → option error
}.

(** The remote function, with a state of its own, and [Svc.Invoke] on it:
    the function name and the payload go in, the result comes out. *)
Class Service : Type := {
  lambda : Type;
  Svc_Invoke : lambda → string → string → InvokeResult * lambda
}.

(** [json.Unmarshal(data, &m)] for a map variable [m] holding [cur]: a JSON
    null sets the variable to nil, a JSON object is stored into the map the
    variable holds (a fresh one if it is nil), a JSON value of another kind
    is an error and leaves the variable as it was; a text that does not
    decode is an error and leaves what the decoder had stored. *)
Definition unmarshal_map `{Runtime} (data : string) (cur : gomap) : gomap * option error :=
  match json_Unmarshal data with
  | Err e => (json_Unmarshal_partial data cur, Some e)
  | Ok VNil => (None, None)
  | Ok (VMap m) => (Some (m ∪ default ∅ cur), None)
  | Ok _ => (cur, Some "json: cannot unmarshal into Go value of type map[string]interface {}"%string)
  end.

(** ** Argument merger *)

(** [deepMerge(dst, src)]. The Go function updates [dst] in place and
    recurses into the maps stored in it; the maps come from one decoded
    document each, nothing else refers to them, so the update is modelled by
    the map it leaves in [dst]. [merge_key] is the body of the loop over the
    entries of [src]; the recursion is on the source value. *)
Definition merge_key (rec : value → gmap string value → gmap string value)
    (k : string) (v : value) (dst : gmap string value) : gmap string value :=
  match v, dst !! k with
  | VMap _, Some (VMap dmap) => <[k := VMap (rec v dmap)]> dst
  | _, _ => <[k := v]> dst
  end.

Fixpoint merge_into (src : value) (dst : gmap string value) {struct src} : gmap string value :=
  match src with
  | VMap m => map_fold (merge_key merge_into) dst m
  | _ => dst
  end.

Definition deepMerge (dst src : gmap string value) : gmap string value :=
  merge_into (VMap src) dst.

Section Provider.
Context `{rt : Runtime} `{sv : Service}.

(** One round of the loop of [parseArgsJSON] over the array elements. *)
Definition merge_fragment (final : gmap string value) (el : value) : gmap string value :=
  match el with
  | VStr s =>
      match unmarshal_map s None with
      | (_, Some _) => final
      | (Some m, None) => deepMerge final m
      | (None, None) => final
      end
  | _ => final
  end.

Definition parseArgsJSON (argsInput : value) : res gomap :=
  match argsInput with
  | VArr arr => Ok (Some (fold_left merge_fragment arr ∅))
  | VStr s =>
      match unmarshal_map s None with
      | (_, Some e) =>
          Err ("failed to parse args as JSON object: " +:+ e +:+ nl +:+ "Input was:" +:+ nl +:+ s)
      | (m, None) => Ok m
      end
  | _ => Err "args must be either string or array of strings"
  end.

(** ** The state-and-trace monad *)

(** What the trace records: [EInvoke p r] is one call of [Svc.Invoke] made
    by [invokeLambda] for the payload [p], with the result [r] that
    [invokeLambda] returns for it; [EValidate side] is one call of
    [validateWithSchema]; [EForceNew k] is one call of [d.ForceNew(k)]. *)
Inductive event : Type :=
  | EInvoke (p : lambdaPayload) (r : res lambdaResponse)
  | EValidate (side : string)
  | EForceNew (key : string).

Record cstate : Type := mkState {
  client : remoteClient;
  svc : lambda
}.

Definition M (A : Type) : Type := cstate → A * cstate * list event.

#[export] Instance M_mret : MRet M := λ A a st, (a, st, []).

#[export] Instance M_bind : MBind M := λ A B f m st,
  let '(a, st1, t1) := m st in
  let '(b, st2, t2) := f a st1 in
  (b, st2, t1 ++ t2).

Definition emit (e : event) : M unit := λ st, (tt, st, [e]).

Definition get_client : M remoteClient := λ st, (client st, st, []).

Definition set_client (c : remoteClient) : M unit :=
  λ st, (tt, mkState c (svc st), []).

(** [client.Svc.Invoke(&lambda.InvokeInput{FunctionName, Payload})] *)
Definition invoke_svc (bytes : string) : M InvokeResult :=
  λ st, let '(out, s') := Svc_Invoke (svc st) (LambdaName (client st)) bytes in
        (out, mkState (client st) s', []).

(** ** Remote invoker *)

(** The JSON object that [json.Marshal] sees for a [lambdaPayload]: the
    fields tagged [omitempty] are left out when empty. *)
Definition payload_value (p : lambdaPayload) : value :=
  let m0 : gmap string value :=
    <["action" := VStr (Action p)]> (<["args" := gomap_value (Args p)]> ∅) in
  let m1 := if Nat.eqb (gomap_len (State p)) 0 then m0
            else <["state" := gomap_value (State p)]> m0 in
  let m2 := if Nat.eqb (gomap_len (Store p)) 0 then m1
            else <["store" := gomap_value (Store p)]> m1 in
  let m3 := if Planning p then <["planning" := VBool true]> m2 else m2 in
  VMap m3.

(** [invokeLambda] from the decoded reply [out] on: the result, the store,
    the replace flag, the reason and the id. *)
Definition parse_response (out : gomap) : lambdaResponse :=
  let resultVal : gomap :=
    match gomap_get out "result" with
    | Some (VMap v) => Some v
    | Some (VStr v) =>
        match unmarshal_map v None with
        | (_, Some _) => Some ∅
        | (m, None) => m
        end
    | Some _ => Some ∅
    | None => Some ∅
    end in
  let storeVal : gomap :=
    match gomap_get out "store" with
    | Some (VMap v) => Some v
    | Some (VStr v) => fst (unmarshal_map v None)
    | Some _ => Some ∅
    | None => None
    end in
  let replace := match gomap_get out "replace" with Some (VBool b) => b | _ => false end in
  let reason := match gomap_get out "reason" with Some (VStr s) => s | _ => ""%string end in
  let id :=
    match resultVal with
    | Some m => match m !! "id" with
                | Some idRaw => fst (as_string idRaw)
                | None => ""%string
                end
    | None => ""%string
    end in
  mkResponse id resultVal storeVal replace reason.

Definition invokeLambda (payload : lambdaPayload) : M (res lambdaResponse) :=
  match json_Marshal (payload_value payload) with
  | Err e => mret (Err e)
  | Ok bytes =>
      resp ← invoke_svc bytes;
      let r :=
        match resp with
        | InvokeErr e => Err e
        | InvokeOutput (Some _) pl => Err ("lambda error: " +:+ pl)
        | InvokeOutput None pl =>
            match unmarshal_map pl None with
            | (_, Some e) => Err e
            | (out, None) => Ok (parse_response out)
            end
        end in
      emit (EInvoke payload r) ;;
      mret r
  end.

(** ** Schema cache *)

Definition getSchemas : M (option lambdaSchemaResponse * option error) :=
  c ← get_client;
  (if once c then mret tt
   else
     resp ← invokeLambda (mkPayload "schema" None None None false);
     match resp with
     | Err e =>
         set_client (mkClient (LambdaName c) true (schemas c) (Some e))
     | Ok resp =>
         let schemaResp :=
           match Result resp with
           | Some _ =>
               match json_Marshal (gomap_value (Result resp)) with
               | Ok resultBytes => json_Unmarshal_schema resultBytes
               | Err _ => mkSchemaResponse None None
               end
           | None => mkSchemaResponse None None
           end in
         set_client (mkClient (LambdaName c) true (Some schemaResp) (schemaErr c))
     end) ;;
  c' ← get_client;
  mret (schemas c', schemaErr c').

(** ** Validator *)

Definition validateWithSchema (schema : gomap) (doc : value) (side : string) : M (option error) :=
  emit (EValidate side) ;;
  match schema with
  | None => mret None
  | Some sch =>
      if Nat.eqb (size sch) 0 then mret None
      else
        match gojsonschema_Validate sch doc with
        | Err e => mret (Some ("jsonschema validation error (" +:+ side +:+ "): " +:+ e))
        | Ok [] => mret None
        | Ok errs =>
            let msg := side +:+ " failed schema validation:" +:+ nl +:+
                       String.concat "" (map (λ desc, "- " +:+ desc +:+ nl) errs) in
            mret (Some (fmt_Errorf msg))
        end
  end.

(** ** Host resource data *)

(** [d.Get(key)]; an attribute that is not set reads as nil. *)
Definition rd_Get (d : ResourceData) (key : string) : value :=
  default VNil (rd_attrs d !! key).

(** [d.GetOk(key)]: the value, and whether it is set to a non-zero value. *)
Definition rd_GetOk (d : ResourceData) (key : string) : value * bool :=
  (rd_Get d key, negb (is_zero (rd_Get d key))).

Definition rd_Set (d : ResourceData) (key : string) (v : value) : ResourceData :=
  mkData (rd_id d) (<[key := v]> (rd_attrs d)) (rd_isNew d).

Definition rd_SetId (d : ResourceData) (id : string) : ResourceData :=
  mkData id (rd_attrs d) (rd_isNew d).

(** What the host persists for [d] ([ResourceData.State]): nothing at all
    when the id is empty, else the id with the attributes. *)
Definition rd_State (d : ResourceData) : option (string * gmap string value) :=
  if String.eqb (rd_id d) "" then None else Some (rd_id d, rd_attrs d).

Definition df_Get (d : ResourceDiff) (key : string) : value :=
  default VNil (df_new d !! key).

Definition df_GetOk (d : ResourceDiff) (key : string) : value * bool :=
  (df_Get d key, negb (is_zero (df_Get d key))).

(** [d.GetChange(key)]: the prior value and the planned one. *)
Definition df_GetChange (d : ResourceDiff) (key : string) : value * value :=
  (default VNil (df_old d !! key), df_Get d key).

(** ** Store codec *)

(** The block that every operation runs on the result of [GetOk("store")]:
    start from an empty map, and decode the attribute into it when it is a
    non-empty string, dropping the decoder's error. *)
Definition decode_store (got : value * bool) : gomap :=
  let store : gomap := Some ∅ in
  let '(v, ok) := got in
  if ok then
    let '(storeStr, ok) := as_string v in
    if ok && negb (String.eqb storeStr "") then fst (unmarshal_map storeStr store)
    else store
  else store.

Definition setStoreAsJSONString (d : ResourceData) (store : gomap) : ResourceData * option error :=
  match store with
  | None => (rd_Set d "store" (VStr ""), None)
  | Some m =>
      match json_Marshal (VMap m) with
      | Err e => (d, Some ("could not marshal store as JSON: " +:+ e))
      | Ok bytes => (rd_Set d "store" (VStr bytes), None)
      end
  end.

(** ** Helpers of the operations *)

Definition getPreviousArgs (d : ResourceData) : gomap :=
  if rd_isNew d then Some ∅
  else
    let '(v, ok) := rd_GetOk d "args" in
    if negb ok then Some ∅
    else
      let '(argsStr, ok) := as_string v in
      if negb ok || String.eqb argsStr "" then Some ∅
      else
        match parseArgsJSON (VStr argsStr) with
        | Err _ => Some ∅
        | Ok m => m
        end.

Definition isPlanning : bool :=
  String.eqb (os_Getenv "TF_LOG") "TRACE" && String.eqb (os_Getenv "TF_IN_AUTOMATION") "1".

Definition mapStringValues (input : gomap) : gmap string value :=
  (λ v, match v with
        | VStr val => VStr val
        | val => VStr (fmt_Sprint val)
        end) <$> default ∅ input.

(** [flattenMapValues]: nested maps and arrays become their JSON text. *)
Definition flattenMapValues (input : gomap) : gmap string value :=
  (λ v, match v with
        | VMap _ | VArr _ =>
            match json_Marshal v with
            | Ok encoded => VStr encoded
            | Err _ => VStr (fmt_Sprint v)
            end
        | _ => v
        end) <$> default ∅ input.

(** A nil [schemas] with a nil error cannot be dereferenced: the operation
    panics, which is reported here as this error. *)
Definition nil_schemas : error := "panic: nil pointer dereference".

(** ** Lifecycle operations *)

Definition resourceRemoteCreate (d : ResourceData) : M (diag * ResourceData) :=
  match parseArgsJSON (rd_Get d "args") with
  | Err e => mret (Some ("create: " +:+ e), d)
  | Ok args =>
      let store := decode_store (rd_GetOk d "store") in
      let state : gomap := Some ∅ in
      '(schemas, err) ← getSchemas;
      match err, schemas with
      | Some e, _ => mret (Some e, d)
      | None, None => mret (Some nil_schemas, d)
      | None, Some schemas =>
          verr ← validateWithSchema (Request schemas) (gomap_value args) "request";
          match verr with
          | Some e => mret (Some e, d)
          | None =>
              r ← invokeLambda (mkPayload "create" args state store isPlanning);
              match r with
              | Err e => mret (Some e, d)
              | Ok res =>
                  if String.eqb (ID res) "" then
                    mret (Some "lambda create response missing required 'id' field or returned empty id"%string, d)
                  else
                    verr ← validateWithSchema (Response schemas) (gomap_value (Result res)) "response";
                    match verr with
                    | Some e => mret (Some e, d)
                    | None =>
                        let d := rd_SetId d (ID res) in
                        let d := rd_Set d "result" (VMap (mapStringValues (Result res))) in
                        let '(d, serr) := setStoreAsJSONString d (RStore res) in
                        mret (serr, d)
                    end
              end
          end
      end
  end.

Definition resourceRemoteRead (d : ResourceData) : M (diag * ResourceData) :=
  match parseArgsJSON (rd_Get d "args") with
  | Err e => mret (Some ("read: " +:+ e), d)
  | Ok args =>
      let store := decode_store (rd_GetOk d "store") in
      let state := getPreviousArgs d in
      '(schemas, err) ← getSchemas;
      match err, schemas with
      | Some e, _ => mret (Some e, d)
      | None, None => mret (Some nil_schemas, d)
      | None, Some schemas =>
          verr ← validateWithSchema (Request schemas) (gomap_value args) "request";
          match verr with
          | Some e => mret (Some e, d)
          | None =>
              r ← invokeLambda (mkPayload "read" args state store isPlanning);
              match r with
              | Err e => mret (Some ("remote read failed: " +:+ e), d)
              | Ok res =>
                  if String.eqb (ID res) "" then mret (None, rd_SetId d "")
                  else
                    verr ← validateWithSchema (Response schemas) (gomap_value (Result res)) "response";
                    match verr with
                    | Some e => mret (Some e, d)
                    | None =>
                        let d := rd_SetId d (ID res) in
                        let d := rd_Set d "result" (VMap (mapStringValues (Result res))) in
                        let '(d, serr) := setStoreAsJSONString d (RStore res) in
                        mret (serr, d)
                    end
              end
          end
      end
  end.

(** [d.Set("result", ...)] is given a map of strings, which the host
    accepts: the branch on its error is never taken. *)
Definition resourceRemoteUpdate (d : ResourceData) : M (diag * ResourceData) :=
  match parseArgsJSON (rd_Get d "args") with
  | Err e => mret (Some ("update: " +:+ e), d)
  | Ok args =>
      let store := decode_store (rd_GetOk d "store") in
      let state := getPreviousArgs d in
      '(schemas, err) ← getSchemas;
      match err, schemas with
      | Some e, _ => mret (Some e, d)
      | None, None => mret (Some nil_schemas, d)
      | None, Some schemas =>
          verr ← validateWithSchema (Request schemas) (gomap_value args) "request";
          match verr with
          | Some e => mret (Some e, d)
          | None =>
              r ← invokeLambda (mkPayload "update" args state store isPlanning);
              match r with
              | Err e => mret (Some e, d)
              | Ok res =>
                  if String.eqb (ID res) "" then
                    mret (Some "lambda update response missing required 'id' field or returned empty id"%string, d)
                  else
                    verr ← validateWithSchema (Response schemas) (gomap_value (Result res)) "response";
                    match verr with
                    | Some e => mret (Some e, d)
                    | None =>
                        let d := rd_SetId d (ID res) in
                        let d := rd_Set d "result" (VMap (mapStringValues (Result res))) in
                        let '(d, serr) := setStoreAsJSONString d (RStore res) in
                        mret (serr, d)
                    end
              end
          end
      end
  end.

Definition resourceRemoteDelete (d : ResourceData) : M (diag * ResourceData) :=
  match parseArgsJSON (rd_Get d "args") with
  | Err e => mret (Some ("delete: " +:+ e), d)
  | Ok args =>
      let store := decode_store (rd_GetOk d "store") in
      let state := getPreviousArgs d in
      '(schemas, err) ← getSchemas;
      match err, schemas with
      | Some e, _ => mret (Some e, d)
      | None, None => mret (Some nil_schemas, d)
      | None, Some schemas =>
          verr ← validateWithSchema (Request schemas) (gomap_value args) "request";
          match verr with
          | Some e => mret (Some e, d)
          | None =>
              r ← invokeLambda (mkPayload "delete" args state store isPlanning);
              match r with
              | Err e => mret (Some e, d)
              | Ok res =>
                  if String.eqb (ID res) "" then mret (None, rd_SetId d "")
                  else
                    let d := rd_SetId d (ID res) in
                    let d := rd_Set d "result" (VMap (mapStringValues (Result res))) in
                    let '(d, serr) := setStoreAsJSONString d (RStore res) in
                    mret (serr, d)
              end
          end
      end
  end.

(** ** Diff engine: the [CustomizeDiff] hook of [resourceRemote] *)

Definition CustomizeDiff (d : ResourceDiff) : M (option error) :=
  match parseArgsJSON (df_Get d "args") with
  | Err e => mret (Some ("CustomizeDiff: " +:+ e))
  | Ok args =>
      let store := decode_store (df_GetOk d "store") in
      let '(old, _) := df_GetChange d "args" in
      let '(oldArgsStr, ok) := as_string old in
      let isCreate := negb ok || String.eqb oldArgsStr "" || String.eqb oldArgsStr "{}" in
      match (if negb isCreate then parseArgsJSON (VStr oldArgsStr) else Ok (Some ∅)) with
      | Err e => mret (Some ("CustomizeDiff: old args not valid JSON: " +:+ e))
      | Ok oldArgs =>
          if isCreate then mret None
          else
            r ← invokeLambda (mkPayload "diff" args oldArgs store false);
            match r with
            | Err e => mret (Some e)
            | Ok res =>
                if Replace res then
                  emit (EForceNew "args") ;;
                  match ForceNew d "args" with
                  | Some e => mret (Some ("failed to mark 'args' for replacement: " +:+ e))
                  | None => mret None
                  end
                else mret None
            end
      end
  end.

End Provider.

(** ** Provider configuration *)

(** [configureProvider], on the two strings it reads from the provider
    block. The AWS session it opens (with the region, for a function given by
    name) is behind [Service]; the client starts with nothing fetched. *)
Definition configureProvider (lambdaName region : string) : res remoteClient :=
  if String.prefix "arn:" lambdaName then Ok (mkClient lambdaName false None None)
  else if String.eqb region "" then Err "region is required when lambda is not an ARN"
  else Ok (mkClient lambdaName false None None).

(** ** A runtime to run the operations on examples

    A JSON codec for the fragment of JSON with integers, strings without
    escapes, arrays and objects; a schema check that knows [required]; a
    remote function that answers from a script. *)

Module Fixture.

Definition dq : ascii := "034"%char.

(** JSON text is written with single quotes in the examples. *)
Fixpoint q (s : string) : string :=
  match s with
  | EmptyString => EmptyString
  | String c r => String (if Ascii.eqb c "'"%char then dq else c) (q r)
  end.

Definition quote (s : string) : string := String dq (s +:+ String dq EmptyString).

Fixpoint print_value (v : value) : string :=
  match v with
  | VNil => "null"
  | VBool true => "true"
  | VBool false => "false"
  | VNum n => pretty n
  | VStr s => quote s
  | VArr l =>
      "[" +:+
      (fix elems (l : list value) : string :=
         match l with
         | [] => ""
         | [x] => print_value x
         | x :: r => print_value x +:+ "," +:+ elems r
         end) l +:+ "]"
  | VMap m =>
      "{" +:+
      map_fold (λ k x acc,
        quote k +:+ ":" +:+ print_value x +:+
        (if String.eqb acc "" then "" else "," +:+ acc)) ""%string m +:+ "}"
  end.

Fixpoint skip_ws (s : string) : string :=
  match s with
  | String c r => if Ascii.eqb c " "%char || Ascii.eqb c "010"%char then skip_ws r else s
  | EmptyString => s
  end.

Fixpoint read_string (s : string) : option (string * string) :=
  match s with
  | EmptyString => None
  | String c r =>
      if Ascii.eqb c dq then Some (EmptyString, r)
      else if Ascii.eqb c "\"%char then None
      else match read_string r with
           | Some (x, rest) => Some (String c x, rest)
           | None => None
           end
  end.

Definition digit (c : ascii) : option Z :=
  let n := Z.of_nat (nat_of_ascii c) in
  if (48 <=? n)%Z && (n <=? 57)%Z then Some (n - 48)%Z else None.

Fixpoint read_digits (s : string) (acc : Z) : Z * string :=
  match s with
  | String c r =>
      match digit c with
      | Some k => read_digits r (10 * acc + k)%Z
      | None => (acc, s)
      end
  | EmptyString => (acc, s)
  end.

Definition read_number (s : string) : option (Z * string) :=
  match s with
  | String "-" (String c r) =>
      match digit c with
      | Some k => let '(n, rest) := read_digits r k in Some ((- n)%Z, rest)
      | None => None
      end
  | String c r =>
      match digit c with
      | Some k => Some (read_digits r k)
      | None => None
      end
  | EmptyString => None
  end.

Definition drop_prefix (p s : string) : option string :=
  if String.prefix p s then Some (String.substring (String.length p) (String.length s - String.length p) s)
  else None.

Fixpoint parse_value (fuel : nat) (s : string) : option (value * string) :=
  match fuel with
  | 0 => None
  | S fuel =>
      match skip_ws s with
      | String "{" r =>
          match skip_ws r with
          | String "}" r' => Some (VMap ∅, r')
          | r' => match parse_members fuel r' with
                  | Some (m, rest) => Some (VMap m, rest)
                  | None => None
                  end
          end
      | String "[" r =>
          match skip_ws r with
          | String "]" r' => Some (VArr [], r')
          | r' => match parse_elems fuel r' with
                  | Some (l, rest) => Some (VArr l, rest)
                  | None => None
                  end
          end
      | String "034" r =>
          match read_string r with
          | Some (x, rest) => Some (VStr x, rest)
          | None => None
          end
      | s' =>
          match drop_prefix "null" s', drop_prefix "true" s', drop_prefix "false" s' with
          | Some rest, _, _ => Some (VNil, rest)
          | _, Some rest, _ => Some (VBool true, rest)
          | _, _, Some rest => Some (VBool false, rest)
          | _, _, _ =>
              match read_number s' with
              | Some (n, rest) => Some (VNum n, rest)
              | None => None
              end
          end
      end
  end
with parse_elems (fuel : nat) (s : string) : option (list value * string) :=
  match fuel with
  | 0 => None
  | S fuel =>
      match parse_value fuel s with
      | Some (v, rest) =>
          match skip_ws rest with
          | String "," r =>
              match parse_elems fuel r with
              | Some (l, rest') => Some (v :: l, rest')
              | None => None
              end
          | String "]" r => Some ([v], r)
          | _ => None
          end
      | None => None
      end
  end
with parse_members (fuel : nat) (s : string) : option (gmap string value * string) :=
  match fuel with
  | 0 => None
  | S fuel =>
      match skip_ws s with
      | String "034" r =>
          match read_string r with
          | Some (k, rest) =>
              match skip_ws rest with
              | String ":" r1 =>
                  match parse_value fuel r1 with
                  | Some (v, rest1) =>
                      match skip_ws rest1 with
                      | String "," r2 =>
                          match parse_members fuel r2 with
                          | Some (m, rest2) => Some (m ∪ {[k := v]}, rest2)
                          | None => None
                          end
                      | String "}" r2 => Some ({[k := v]}, r2)
                      | _ => None
                      end
                  | None => None
                  end
              | _ => None
              end
          | None => None
          end
      | _ => None
      end
  end.

Definition parse (s : string) : res value :=
  match parse_value (2 * String.length s + 2) s with
  | Some (v, rest) =>
      match skip_ws rest with
      | EmptyString => Ok v
      | _ => Err "invalid character after top-level value"
      end
  | None => Err "unexpected end of JSON input"
  end.

Definition schema_field (m : gmap string value) (k : string) : gomap :=
  match m !! k with
  | Some (VMap x) => Some x
  | _ => None
  end.

Definition unmarshal_schema (s : string) : lambdaSchemaResponse :=
  match parse s with
  | Ok (VMap m) => mkSchemaResponse (schema_field m "request") (schema_field m "response")
  | _ => mkSchemaResponse None None
  end.

(** The schema check: one violation per key listed under [required] that the
    document lacks. *)
Definition validate (schema : gmap string value) (doc : value) : res (list string) :=
  match schema !! "required" with
  | Some (VArr keys) =>
      Ok (omap (λ k, match k, doc with
                     | VStr k, VMap m =>
                         match m !! k with
                         | Some _ => None
                         | None => Some (k +:+ " is required")
                         end
                     | VStr k, _ => Some (k +:+ " is required")
                     | _, _ => None
                     end) keys)
  | Some _ => Err "required must be an array"
  | None => Ok []
  end.

(** The remote function answers the calls in turn from a script. *)
Definition scripted (script : list InvokeResult) (name bytes : string)
    : InvokeResult * list InvokeResult :=
  match script with
  | r :: rest => (r, rest)
  | [] => (InvokeErr "RequestError: send request failed", [])
  end.

(** [fmt.Errorf] on a format without operands and without flags: [%%] is a
    percent sign, a verb has no operand, a lone [%] at the end has no verb. *)
Fixpoint errorf (format : string) : string :=
  match format with
  | EmptyString => EmptyString
  | String c rest =>
      if Ascii.eqb c "%"%char then
        match rest with
        | EmptyString => "%!(NOVERB)"
        | String verb rest' =>
            if Ascii.eqb verb "%"%char then String "%"%char (errorf rest')
            else "%!" +:+ String verb ("(MISSING)" +:+ errorf rest')
        end
      else String c (errorf rest)
  end.

(** The numbers of [parse] have any size, so a text that it decodes is
    stored whole and one that it rejects stores nothing. *)
#[export] Instance runtime : Runtime := {|
  json_Marshal v := Ok (print_value v);
  json_Unmarshal := parse;
  json_Unmarshal_partial _ cur := cur;
  json_Unmarshal_schema := unmarshal_schema;
  gojsonschema_Validate := validate;
  os_Getenv _ := ""%string;
  fmt_Sprint := print_value;
  fmt_Errorf := errorf;
  ForceNew _ _ := None
|}.

(** The same runtime with the numbers of Go: a number is decoded into a
    float64, and one that is out of its range is reported as an error and
    stored as nil, while the decoder goes on with the rest of the text. *)
Definition float64_limit : Z := (2 ^ 1024 - 2 ^ 970)%Z.

Fixpoint in_range (v : value) : bool :=
  match v with
  | VNum n => (Z.abs n <? float64_limit)%Z
  | VArr l => forallb in_range l
  | VMap m => map_fold (λ _ x acc, in_range x && acc) true m
  | _ => true
  end.

Fixpoint stored (v : value) : value :=
  match v with
  | VNum n => if (Z.abs n <? float64_limit)%Z then v else VNil
  | VArr l => VArr (map stored l)
  | VMap m => VMap (map_fold (λ k x acc, <[k := stored x]> acc) ∅ m)
  | _ => v
  end.

Definition float64_runtime : Runtime := {|
  json_Marshal v := Ok (print_value v);
  json_Unmarshal s :=
    match parse s with
    | Ok v =>
        if in_range v then Ok v
        else Err "json: cannot unmarshal number into Go value of type float64"
    | Err e => Err e
    end;
  json_Unmarshal_partial s cur :=
    match parse s with
    | Ok (VMap m) =>
        match stored (VMap m) with
        | VMap m' => Some (m' ∪ default ∅ cur)
        | _ => cur
        end
    | _ => cur
    end;
  json_Unmarshal_schema := unmarshal_schema;
  gojsonschema_Validate := validate;
  os_Getenv _ := ""%string;
  fmt_Sprint := print_value;
  fmt_Errorf := errorf;
  ForceNew _ _ := None
|}.

#[export] Instance service : Service := {|
  lambda := list InvokeResult;
  Svc_Invoke := scripted
|}.

Definition reply (text : string) : InvokeResult := InvokeOutput None (q text).

Definition fresh_client : remoteClient := mkClient "handler" false None None.

Definition world (script : list InvokeResult) : cstate := mkState fresh_client script.

Definition data (id : string) (args store : value) : ResourceData :=
  mkData id (<["args" := args]> (<["store" := store]> ∅)) false.

End Fixture.

(** ** Vocabulary of the statements *)

(** The value that a merge leaves at a key where the incoming fragment has
    [v] and the accumulator has [d]. *)
Definition merged_entry (d : option value) (v : value) : value :=
  match v, d with
  | VMap vmap, Some (VMap dmap) => VMap (deepMerge dmap vmap)
  | _, _ => v
  end.

(** The payload of the schema fetch. *)
Definition schema_request : lambdaPayload := mkPayload "schema" None None None false.

(** The result of [invokeLambda] for what [Svc.Invoke] returned. *)
Definition outcome `{Runtime} (resp : InvokeResult) : res lambdaResponse :=
  match resp with
  | InvokeErr e => Err e
  | InvokeOutput (Some _) pl => Err ("lambda error: " +:+ pl)
  | InvokeOutput None pl =>
      match unmarshal_map pl None with
      | (_, Some e) => Err e
      | (out, None) => Ok (parse_response out)
      end
  end.

(** The three ways in which a remote invocation fails: the transport fails,
    the function reports an error, or the reply does not decode. *)
Definition invocation_failed `{Runtime} (resp : InvokeResult) : Prop :=
  match resp with
  | InvokeErr _ => True
  | InvokeOutput (Some _) _ => True
  | InvokeOutput None pl => ∃ e, (unmarshal_map pl None).2 = Some e
  end.

(** The string under the top-level [id] of a reply envelope. *)
Definition envelope_id (out : gmap string value) : string :=
  match out !! "id" with
  | Some (VStr s) => s
  | _ => ""
  end.

(** The string under [id] of the result of a parsed response. *)
Definition result_id (r : lambdaResponse) : string :=
  match Result r with
  | Some m => match m !! "id" with
              | Some (VStr s) => s
              | _ => ""
              end
  | None => ""
  end.

(** A traced event that is not a request, a request for the schema, or a
    request whose state is [s]. *)
Definition carries_state (s : gomap) (ev : event) : Prop :=
  match ev with
  | EInvoke p _ => Action p = "schema" ∨ State p = s
  | _ => True
  end.

(** The number of maps nested in a value, itself included. *)
Fixpoint value_size (v : value) : nat :=
  match v with
  | VMap m => S (map_fold (λ _ x n, value_size x + n) 0 m)
  | _ => 0
  end.

(** [part] occurs in [msg]. *)
Definition contains (msg part : string) : Prop :=
  ∃ pre post, msg = pre +:+ part +:+ post.

(** No percent sign occurs in [s]: as a format it has no verb. *)
Fixpoint verb_free (s : string) : bool :=
  match s with
  | EmptyString => true
  | String c r => negb (Ascii.eqb c "%"%char) && verb_free r
  end.

(** The action of a traced request. *)
Definition invoked_action (ev : event) : option string :=
  match ev with
  | EInvoke p _ => Some (Action p)
  | _ => None
  end.

(** A value that is neither a map nor an array. *)
Definition is_flat (v : value) : Prop :=
  match v with
  | VMap _ | VArr _ => False
  | _ => True
  end.

(** [n] calls of [getSchemas] in a row, with their results. *)
Fixpoint getSchemas_times `{Runtime} `{Service} (n : nat)
    : M (list (option lambdaSchemaResponse * option error)) :=
  match n with
  | 0 => mret []
  | S n => r ← getSchemas; rs ← getSchemas_times n; mret (r :: rs)
  end.

(** The state that an operation sends: none on create, the previous
    arguments otherwise. *)
Definition sent_state `{rt : Runtime} (action : string) (d : ResourceData) : gomap :=
  if String.eqb action "create" then Some ∅ else getPreviousArgs d.

(** What holds of a lifecycle request [p] sent by an operation [action] on
    the resource data [d], in a run that ends in [st'] with the trace [tr]. *)
Definition request_of `{rt : Runtime} `{sv : Service} (action : string) (d : ResourceData) (st' : cstate)
    (tr : list event) (p : lambdaPayload) (r : res lambdaResponse) : Prop :=
  (∃ args, parseArgsJSON (rd_Get d "args") = Ok args
           ∧ p = mkPayload action args (sent_state action d)
                   (decode_store (rd_GetOk d "store")) isPlanning)
  ∧ (∃ sch, schemas (client st') = Some sch
            ∧ schemaErr (client st') = None
            ∧ (validateWithSchema (Request sch) (gomap_value (Args p)) "request" st').1.1 = None)
  ∧ (∃ pre post, tr = pre ++ EValidate "request" :: EInvoke p r :: post).

(** The four operations with their actions. *)
Definition operations `{rt : Runtime} `{sv : Service}
    : list (string * (ResourceData → M (diag * ResourceData))) :=
  [("create", resourceRemoteCreate); ("read", resourceRemoteRead);
   ("update", resourceRemoteUpdate); ("delete", resourceRemoteDelete)].

(** The resource data as an operation writes them from a response. *)
Definition written `{rt : Runtime} (d : ResourceData) (res : lambdaResponse) : ResourceData :=
  rd_Set (rd_SetId d (ID res)) "result" (VMap (mapStringValues (Result res))).

(** What holds when a run that went wrong has touched the resource data: the
    reply was in, and writing its store failed. *)
Definition store_write_failed `{rt : Runtime} (d d' : ResourceData) (e : error) (tr : list event) : Prop :=
  ∃ p res m e',
    EInvoke p (Ok res) ∈ tr
    ∧ RStore res = Some m
    ∧ json_Marshal (VMap m) = Err e'
    ∧ e = "could not marshal store as JSON: " +:+ e'
    ∧ d' = written d res.

(** What holds of a reply [res] that an operation accepted and wrote. *)
Definition accepted `{rt : Runtime} `{sv : Service} (d d' : ResourceData) (st' : cstate) (res : lambdaResponse) : Prop :=
  ID res ≠ ""
  ∧ (∃ sch, schemas (client st') = Some sch
            ∧ (validateWithSchema (Response sch) (gomap_value (Result res))
                 "response" st').1.1 = None)
  ∧ setStoreAsJSONString (written d res) (RStore res) = (d', None).

(** * Properties *)

(** ** The merge *)

Lemma merge_key_lookup k v dst j :
  merge_key merge_into k v dst !! j =
    if decide (k = j) then Some (merged_entry (dst !! k) v) else dst !! j.
Proof.
  unfold merge_key, merged_entry, deepMerge.
  destruct v; try apply lookup_insert.
  destruct (dst !! k) as [[]|]; apply lookup_insert.
Qed.

(** The loop over the entries, taken in any order in which each key comes
    once. *)
Lemma merge_entries_lookup (l : list (string * value)) dst j :
  NoDup l.*1 →
  foldr (uncurry (merge_key merge_into)) dst l !! j =
    match (list_to_map l : gmap string value) !! j with
    | Some v => Some (merged_entry (dst !! j) v)
    | None => dst !! j
    end.
Proof.
  induction l as [|[k v] l IH]; intros Hnd; simpl.
  - by rewrite lookup_empty.
  - apply NoDup_cons in Hnd as [Hk Hnd].
    rewrite merge_key_lookup. case_decide as Hkj.
    + subst j. rewrite lookup_insert_eq. f_equal. f_equal.
      rewrite (IH Hnd).
      assert ((list_to_map l : gmap string value) !! k = None) as ->; [|done].
      by apply not_elem_of_list_to_map_1.
    + rewrite lookup_insert_ne by done. by apply IH.
Qed.

Lemma deepMerge_fold dst src :
  deepMerge dst src = foldr (uncurry (merge_key merge_into)) dst (map_to_list src).
Proof. unfold deepMerge. simpl. apply map_fold_foldr. Qed.

Lemma deepMerge_lookup dst src k :
  deepMerge dst src !! k =
    match src !! k with
    | Some v => Some (merged_entry (dst !! k) v)
    | None => dst !! k
    end.
Proof.
  rewrite deepMerge_fold, merge_entries_lookup by apply NoDup_fst_map_to_list.
  by rewrite list_to_map_to_list.
Qed.

(** Go ranges over a map in an order of its choosing: the outcome of the
    loop of [deepMerge] is the same for all of them. *)
Lemma deepMerge_any_order dst src (l : list (string * value)) :
  l ≡ₚ map_to_list src →
  foldr (uncurry (merge_key merge_into)) dst l = deepMerge dst src.
Proof.
  intros Hp.
  assert (NoDup l.*1) as Hnd by (rewrite Hp; apply NoDup_fst_map_to_list).
  apply map_eq. intros j.
  rewrite deepMerge_lookup, merge_entries_lookup by done.
  by rewrite (list_to_map_proper l (map_to_list src) Hnd Hp), list_to_map_to_list.
Qed.

Lemma deepMerge_empty_r dst : deepMerge dst ∅ = dst.
Proof. apply map_eq. intros k. by rewrite deepMerge_lookup, lookup_empty. Qed.

Section Merger.
Context `{rt : Runtime}.

Lemma merge_fragment_object final s o :
  json_Unmarshal s = Ok (VMap o) →
  merge_fragment final (VStr s) = deepMerge final o.
Proof.
  intros Hs. unfold merge_fragment, unmarshal_map. rewrite Hs. simpl.
  by rewrite (right_id_L ∅ (∪)).
Qed.

Lemma merge_fragments_objects fragments objs final :
  Forall2 (λ s o, json_Unmarshal s = Ok (VMap o)) fragments objs →
  fold_left merge_fragment (VStr <$> fragments) final = fold_left deepMerge objs final.
Proof.
  intros Hall. revert final.
  induction Hall as [|s o ss os Hs _ IH]; intros final; [done|].
  rewrite fmap_cons. cbn [fold_left].
  by rewrite (merge_fragment_object _ _ _ Hs), IH.
Qed.

(** A fragment that is not a string, or does not decode to an object, is
    passed over. *)
Lemma merge_fragment_skipped final el :
  (∀ s o, el = VStr s → json_Unmarshal s ≠ Ok (VMap o)) →
  merge_fragment final el = final.
Proof.
  intros Hel. destruct el; try done. unfold merge_fragment, unmarshal_map.
  destruct (json_Unmarshal s) as [[]|] eqn:Hs; try done.
  - by destruct (Hel s m).
  - by destruct (json_Unmarshal_partial s None).
Qed.

End Merger.

(** C5. The argument merger folds the fragments from left to right: a list of
    fragments that decode to the objects [objs] merges to
    [deepMerge (... (deepMerge ∅ o1) ...) on]. At a key of the incoming
    fragment, two objects are merged recursively and any other value
    replaces the accumulator's; a key the fragment lacks keeps the
    accumulator's value. The merge is deterministic: in whatever order the
    loop of [deepMerge] visits the entries of the fragment, it leaves the
    same object. Merging [{a:1, b:{x:1}}] and then [{b:{y:2}}] gives
    [{a:1, b:{x:1, y:2}}]. *)
Theorem merge_left_to_right `{rt : Runtime}
    (fragments : list string) (objs : list (gmap string value)) :
  Forall2 (λ s o, json_Unmarshal s = Ok (VMap o)) fragments objs →
  parseArgsJSON (VArr (VStr <$> fragments)) = Ok (Some (fold_left deepMerge objs ∅))
  ∧ (∀ (acc frag : gmap string value) (k : string),
       deepMerge acc frag !! k =
         match frag !! k, acc !! k with
         | None, old => old
         | Some (VMap vmap), Some (VMap dmap) => Some (VMap (deepMerge dmap vmap))
         | Some v, _ => Some v
         end)
  ∧ (∀ (acc frag : gmap string value) (entries : list (string * value)),
       entries ≡ₚ map_to_list frag →
       foldr (uncurry (merge_key merge_into)) acc entries = deepMerge acc frag)
  ∧ fold_left deepMerge
      [ <["a" := VNum 1]> {["b" := VMap {["x" := VNum 1]}]};
        {["b" := VMap {["y" := VNum 2]}]} ] ∅
    = <["a" := VNum 1]> {["b" := VMap (<["x" := VNum 1]> {["y" := VNum 2]})]}.
Proof.
  intros Hall. split; [|split; [|split]].
  - unfold parseArgsJSON. by rewrite (merge_fragments_objects _ _ _ Hall).
  - intros acc frag k. rewrite deepMerge_lookup. unfold merged_entry.
    destruct (frag !! k) as [[]|]; try done.
    by destruct (acc !! k) as [[]|].
  - intros acc frag entries. apply deepMerge_any_order.
  - by vm_compute.
Qed.

Lemma merge_left_to_right_witness :
  parseArgsJSON (rt := Fixture.runtime)
    (VArr (VStr <$> [Fixture.q "{'a':1,'b':{'x':1}}"; Fixture.q "{'b':{'y':2}}"]))
  = Ok (Some (fold_left deepMerge
      [ <["a" := VNum 1]> {["b" := VMap {["x" := VNum 1]}]};
        {["b" := VMap {["y" := VNum 2]}]} ] ∅)).
Proof.
  apply (merge_left_to_right (rt := Fixture.runtime)).
  repeat constructor; vm_compute; reflexivity.
Defined.

(** ** Runs of the invoker, the validator and the schema cache *)

Section Runs.
Context `{rt : Runtime} `{sv : Service}.

Lemma invokeLambda_run p st :
  match json_Marshal (payload_value p) with
  | Err e => invokeLambda p st = (Err e, st, [])
  | Ok bytes =>
      let '(resp, s') := Svc_Invoke (svc st) (LambdaName (client st)) bytes in
      invokeLambda p st = (outcome resp, mkState (client st) s', [EInvoke p (outcome resp)])
  end.
Proof.
  unfold invokeLambda. destruct (json_Marshal (payload_value p)) as [bytes|e]; [|done].
  unfold mbind, M_bind, invoke_svc, emit, mret, M_mret, outcome.
  by destruct (Svc_Invoke (svc st) (LambdaName (client st)) bytes) as [resp s'].
Qed.

(** A call of [invokeLambda] leaves the client as it is, and either makes no
    remote call and fails, or makes one call and returns its outcome. *)
Lemma invokeLambda_trace p st r st' tr :
  invokeLambda p st = (r, st', tr) →
  client st' = client st ∧
  ((tr = [] ∧ st' = st ∧ ∃ e, r = Err e) ∨ tr = [EInvoke p r]).
Proof.
  intros Hrun. pose proof (invokeLambda_run p st) as Hspec.
  destruct (json_Marshal (payload_value p)) as [bytes|e].
  - destruct (Svc_Invoke (svc st) (LambdaName (client st)) bytes) as [resp s'].
    rewrite Hspec in Hrun. simplify_eq. split; [done|]. by right.
  - rewrite Hspec in Hrun. simplify_eq. split; [done|]. left. eauto.
Qed.

Lemma validateWithSchema_trace schema doc side st verr st' tr :
  validateWithSchema schema doc side st = (verr, st', tr) →
  st' = st ∧ tr = [EValidate side].
Proof.
  unfold validateWithSchema, mbind, M_bind, emit, mret, M_mret.
  intros Hrun. repeat case_match; by simplify_eq.
Qed.

(** Once the fetch was attempted, [getSchemas] answers from the client. *)
Lemma getSchemas_cached st :
  once (client st) = true →
  getSchemas st = ((schemas (client st), schemaErr (client st)), st, []).
Proof.
  intros Honce. unfold getSchemas, mbind, M_bind, get_client, mret, M_mret.
  by rewrite Honce.
Qed.

(** A call of [getSchemas] returns what it leaves in the client, with the
    attempt marked as made; it calls the remote function at most once, and
    only for the schema. *)
Lemma getSchemas_trace st r st' tr :
  getSchemas st = (r, st', tr) →
  once (client st') = true ∧
  r = (schemas (client st'), schemaErr (client st')) ∧
  (tr = [] ∨ ∃ o, tr = [EInvoke schema_request o] ∧
                  (∀ e, o = Err e → schemaErr (client st') = Some e) ∧
                  (∀ resp, o = Ok resp → is_Some (schemas (client st')))) ∧
  (once (client st) = true → st' = st ∧ tr = []).
Proof.
  intros Hrun. destruct (once (client st)) eqn:Honce.
  { rewrite getSchemas_cached in Hrun by done. simplify_eq.
    repeat split; auto. }
  unfold getSchemas, mbind, M_bind, get_client, set_client, mret, M_mret in Hrun.
  rewrite Honce in Hrun.
  destruct (invokeLambda _ st) as [[o st1] t1] eqn:Hinv.
  apply invokeLambda_trace in Hinv as [Hcl Htr].
  destruct o as [resp|e]; simpl in Hrun; simplify_eq; simpl;
    (split; [done|]); (split; [done|]); (split; [|done]);
    rewrite !(right_id_L [] (++));
    destruct Htr as [(-> & _ & _)| ->]; auto; right; eexists; split; eauto;
    split; intros; simplify_eq; eauto.
Qed.

End Runs.

(** Stepping through a run of an operation. *)
Ltac run_sub :=
  repeat match goal with
  | H : getSchemas _ = _ |- _ =>
      apply getSchemas_trace in H as (? & ? & ? & ?)
  | H : validateWithSchema _ _ _ _ = _ |- _ =>
      apply validateWithSchema_trace in H as [? ?]
  | H : invokeLambda _ _ = _ |- _ =>
      apply invokeLambda_trace in H as [? ?]
  | H : String.eqb _ _ = true |- _ => apply String.eqb_eq in H
  | H : String.eqb _ _ = false |- _ => apply String.eqb_neq in H
  end.

Ltac run_op H :=
  unfold mbind, M_bind, mret, M_mret in H;
  repeat case_match; simplify_eq; run_sub.

Ltac split_traces :=
  repeat match goal with
  | H : _ ∨ _ |- _ => destruct H as [?|?]
  | H : _ ∧ _ |- _ => destruct H
  | H : ∃ _, _ |- _ => destruct H
  end; simplify_eq.

Ltac find_event H :=
  split_traces;
  rewrite ?elem_of_app, ?elem_of_cons, ?elem_of_nil in H;
  repeat match goal with
  | H : _ ∨ _ |- _ => destruct H as [?|?]
  | H : False |- _ => destruct H
  end; simplify_eq.

Ltac cached_error :=
  repeat match goal with
  | H : ∀ e0, Err ?e = Err e0 → _ |- _ => specialize (H e eq_refl)
  end; congruence.

Ltac no_event :=
  rewrite ?elem_of_app, ?elem_of_cons, ?elem_of_nil; naive_solver.

(** ** Lifecycle operations *)

Lemma setStoreAsJSONString_id `{rt : Runtime} d store d' serr :
  setStoreAsJSONString d store = (d', serr) → rd_id d' = rd_id d.
Proof.
  unfold setStoreAsJSONString. intros Hset.
  repeat case_match; by simplify_eq.
Qed.

(** C8. A create whose [create] invocation returns an empty id fails, and
    leaves the resource data as it found it: no id is assigned, no result
    and no store is written. *)
Theorem create_empty_id_fails `{rt : Runtime} `{sv : Service} d st dg d' st' tr p r :
  resourceRemoteCreate d st = (dg, d', st', tr) →
  EInvoke p (Ok r) ∈ tr →
  Action p = "create" →
  ID r = "" →
  dg ≠ None ∧ d' = d.
Proof.
  intros Hrun Hin Hp Hr. unfold resourceRemoteCreate in Hrun.
  run_op Hrun; try done; find_event Hin; done.
Qed.

Lemma create_empty_id_fails_witness :
  let d := Fixture.data "" (VArr [VStr (Fixture.q "{'name':'web'}")]) (VStr "") in
  let st := Fixture.world [Fixture.reply "{'result':{}}";
                           Fixture.reply "{'id':'','result':{'status':'pending'}}"] in
  let run := resourceRemoteCreate (rt := Fixture.runtime) d st in
  run.1.1.1 ≠ None ∧ run.1.1.2 = d.
Proof.
  intros d st run.
  apply (create_empty_id_fails (rt := Fixture.runtime) d st
           run.1.1.1 run.1.1.2 run.1.2 run.2
           (mkPayload "create" (Some {["name" := VStr "web"]}) (Some ∅) (Some ∅) false)
           (mkResponse "" (Some {["status" := VStr "pending"]}) None false "")).
  - vm_compute. reflexivity.
  - vm_compute. repeat constructor.
  - reflexivity.
  - reflexivity.
Defined.

(** C7. A read whose [read] invocation succeeds with an empty id returns
    success and clears the id ([d.SetId("")]), after which the host keeps
    nothing of the resource: its id, result and store go with the record.
    The reply is not checked against the response schema. *)
Theorem read_empty_id_clears `{rt : Runtime} `{sv : Service} d st dg d' st' tr p r :
  resourceRemoteRead d st = (dg, d', st', tr) →
  EInvoke p (Ok r) ∈ tr →
  Action p = "read" →
  ID r = "" →
  dg = None ∧ d' = rd_SetId d "" ∧ rd_State d' = None ∧ EValidate "response" ∉ tr.
Proof.
  intros Hrun Hin Hp Hr. unfold resourceRemoteRead in Hrun.
  run_op Hrun; find_event Hin; try done.
  all: repeat split; try done; no_event.
Qed.

Lemma read_empty_id_clears_witness :
  let d := Fixture.data "i-1" (VArr [VStr (Fixture.q "{'name':'web'}")])
                        (VStr (Fixture.q "{'k':1}")) in
  let st := Fixture.world [Fixture.reply "{'result':{'response':{'required':['status']}}}";
                           Fixture.reply "{'id':'','result':{}}"] in
  let run := resourceRemoteRead (rt := Fixture.runtime) d st in
  run.1.1.1 = None
  ∧ run.1.1.2 = rd_SetId d ""
  ∧ rd_State run.1.1.2 = None
  ∧ EValidate "response" ∉ run.2.
Proof.
  intros d st run.
  apply (read_empty_id_clears (rt := Fixture.runtime) d st
           run.1.1.1 run.1.1.2 run.1.2 run.2
           (mkPayload "read" (Some {["name" := VStr "web"]}) (Some ∅)
                      (Some {["k" := VNum 1]}) false)
           (mkResponse "" (Some ∅) None false "")).
  - vm_compute. reflexivity.
  - vm_compute. repeat constructor.
  - reflexivity.
  - reflexivity.
Defined.

(** A failed invocation, the schema fetch included, fails the operation
    before anything is written. *)
Lemma create_invoke_error `{rt : Runtime} `{sv : Service} d st dg d' st' tr p e :
  resourceRemoteCreate d st = (dg, d', st', tr) →
  EInvoke p (Err e) ∈ tr → dg ≠ None ∧ d' = d.
Proof.
  intros Hrun Hin. unfold resourceRemoteCreate in Hrun.
  run_op Hrun; try done; find_event Hin; try done; cached_error.
Qed.

Lemma read_invoke_error `{rt : Runtime} `{sv : Service} d st dg d' st' tr p e :
  resourceRemoteRead d st = (dg, d', st', tr) →
  EInvoke p (Err e) ∈ tr → dg ≠ None ∧ d' = d.
Proof.
  intros Hrun Hin. unfold resourceRemoteRead in Hrun.
  run_op Hrun; try done; find_event Hin; try done; cached_error.
Qed.

Lemma update_invoke_error `{rt : Runtime} `{sv : Service} d st dg d' st' tr p e :
  resourceRemoteUpdate d st = (dg, d', st', tr) →
  EInvoke p (Err e) ∈ tr → dg ≠ None ∧ d' = d.
Proof.
  intros Hrun Hin. unfold resourceRemoteUpdate in Hrun.
  run_op Hrun; try done; find_event Hin; try done; cached_error.
Qed.

Lemma delete_invoke_error `{rt : Runtime} `{sv : Service} d st dg d' st' tr p e :
  resourceRemoteDelete d st = (dg, d', st', tr) →
  EInvoke p (Err e) ∈ tr → dg ≠ None ∧ d' = d.
Proof.
  intros Hrun Hin. unfold resourceRemoteDelete in Hrun.
  run_op Hrun; try done; find_event Hin; try done; cached_error.
Qed.

Lemma delete_not_validated `{rt : Runtime} `{sv : Service} d st dg d' st' tr :
  resourceRemoteDelete d st = (dg, d', st', tr) → EValidate "response" ∉ tr.
Proof.
  intros Hrun. unfold resourceRemoteDelete in Hrun.
  run_op Hrun; split_traces; no_event.
Qed.

(** C6, as the code has it. A delete never checks the reply against the
    response schema. When the [delete] invocation succeeds with an empty id,
    the id is cleared and the delete succeeds; when it succeeds with an id
    that is not empty, that id, the result and the store of the reply are
    written to the resource data. When an invocation fails, the delete fails
    and the resource data stay as they were. *)
Theorem delete_outcome `{rt : Runtime} `{sv : Service} d st dg d' st' tr :
  resourceRemoteDelete d st = (dg, d', st', tr) →
  (EValidate "response" ∉ tr)
  ∧ (∀ p r, EInvoke p (Ok r) ∈ tr → Action p = "delete" →
       if String.eqb (ID r) "" then (dg = None ∧ d' = rd_SetId d "")
       else (rd_id d' = ID r
             ∧ (d', dg) = setStoreAsJSONString
                 (rd_Set (rd_SetId d (ID r)) "result" (VMap (mapStringValues (Result r))))
                 (RStore r)))
  ∧ (∀ p e, EInvoke p (Err e) ∈ tr → dg ≠ None ∧ d' = d).
Proof.
  intros Hrun. split; [by eapply delete_not_validated|].
  split; [|intros p e; by eapply delete_invoke_error].
  intros p r Hin Hp. unfold resourceRemoteDelete in Hrun.
  run_op Hrun; find_event Hin; try done.
  all: split; [|done].
  all: match goal with
  | Hset : setStoreAsJSONString _ _ = _ |- _ =>
      by rewrite (setStoreAsJSONString_id _ _ _ _ Hset)
  end.
Qed.

Lemma delete_outcome_witness :
  let d := Fixture.data "i-1" (VArr [VStr (Fixture.q "{'name':'web'}")]) (VStr "") in
  let st := Fixture.world [Fixture.reply "{'result':{'response':{'required':['status']}}}";
                           Fixture.reply "{'result':{}}"] in
  let run := resourceRemoteDelete (rt := Fixture.runtime) d st in
  (EValidate "response" ∉ run.2)
  ∧ (∀ p r, EInvoke p (Ok r) ∈ run.2 → Action p = "delete" →
       if String.eqb (ID r) "" then (run.1.1.1 = None ∧ run.1.1.2 = rd_SetId d "")
       else (rd_id run.1.1.2 = ID r
             ∧ (run.1.1.2, run.1.1.1) = setStoreAsJSONString (rt := Fixture.runtime)
                 (rd_Set (rd_SetId d (ID r)) "result" (VMap (mapStringValues (rt := Fixture.runtime) (Result r))))
                 (RStore r)))
  ∧ (∀ p e, EInvoke p (Err e) ∈ run.2 → run.1.1.1 ≠ None ∧ run.1.1.2 = d).
Proof.
  intros d st run.
  apply (delete_outcome (rt := Fixture.runtime) d st run.1.1.1 run.1.1.2 run.1.2 run.2).
  vm_compute. reflexivity.
Defined.

(** C6, as the specification states it, fails: the [delete] invocation
    succeeds and returns the id [i-1], the delete reports success, and the
    resource data keep the id [i-1]. *)
Lemma delete_keeps_returned_id :
  let d := Fixture.data "i-1" (VArr [VStr (Fixture.q "{'name':'web'}")]) (VStr "") in
  let st := Fixture.world [Fixture.reply "{'result':{}}";
                           Fixture.reply "{'result':{'id':'i-1','status':'gone'}}"] in
  let run := resourceRemoteDelete (rt := Fixture.runtime) d st in
  (∃ p r, EInvoke p (Ok r) ∈ run.2 ∧ Action p = "delete")
  ∧ run.1.1.1 = None
  ∧ rd_id run.1.1.2 = "i-1"
  ∧ rd_id run.1.1.2 ≠ "".
Proof.
  intros d st run. split; [|by vm_compute].
  exists (mkPayload "delete" (Some {["name" := VStr "web"]}) (Some ∅) (Some ∅) false).
  exists (mkResponse "i-1" (Some (<["id" := VStr "i-1"]> {["status" := VStr "gone"]}))
            None false "").
  split; [|done]. vm_compute. repeat constructor.
Qed.

(** ** Failures of the remote invocation *)

Lemma CustomizeDiff_invoke_error `{rt : Runtime} `{sv : Service} d st dg st' tr p e :
  CustomizeDiff d st = (dg, st', tr) →
  EInvoke p (Err e) ∈ tr → dg ≠ None ∧ EForceNew "args" ∉ tr.
Proof.
  intros Hrun Hin. unfold CustomizeDiff, emit in Hrun.
  run_op Hrun; try done; find_event Hin; try done.
  all: split; [done|no_event].
Qed.

Lemma invokeLambda_failed `{rt : Runtime} `{sv : Service} p st bytes resp s' :
  json_Marshal (payload_value p) = Ok bytes →
  Svc_Invoke (svc st) (LambdaName (client st)) bytes = (resp, s') →
  invocation_failed resp →
  ∃ e, invokeLambda p st = (Err e, mkState (client st) s', [EInvoke p (Err e)]).
Proof.
  intros Hm Hinv Hfail. pose proof (invokeLambda_run p st) as Hrun.
  rewrite Hm, Hinv in Hrun. rewrite Hrun.
  destruct resp as [e|[fe|] pl]; simpl in *; eauto.
  destruct Hfail as [e He].
  destruct (unmarshal_map pl None) as [out [e'|]]; simpl in *; [|done]. eauto.
Qed.

(** C10. A remote invocation that meets a transport error, a function error
    or a reply that does not decode returns an error and no response. In
    each of the four operations an invocation that returns an error makes
    the operation return an error with the resource data left as they were;
    in the diff hook it makes the hook return an error without forcing a
    replacement. *)
Theorem invocation_failure_is_fatal `{rt : Runtime} `{sv : Service} :
  (∀ p st bytes resp s',
     json_Marshal (payload_value p) = Ok bytes →
     Svc_Invoke (svc st) (LambdaName (client st)) bytes = (resp, s') →
     invocation_failed resp →
     ∃ e, invokeLambda p st = (Err e, mkState (client st) s', [EInvoke p (Err e)]))
  ∧ (∀ op d st dg d' st' tr p e,
       op ∈ [resourceRemoteCreate; resourceRemoteRead;
             resourceRemoteUpdate; resourceRemoteDelete] →
       op d st = (dg, d', st', tr) →
       EInvoke p (Err e) ∈ tr →
       dg ≠ None ∧ d' = d)
  ∧ (∀ d st dg st' tr p e,
       CustomizeDiff d st = (dg, st', tr) →
       EInvoke p (Err e) ∈ tr →
       dg ≠ None ∧ EForceNew "args" ∉ tr).
Proof.
  split; [intros; by eapply invokeLambda_failed|].
  split; [|intros; by eapply CustomizeDiff_invoke_error].
  intros op d st dg d' st' tr p e Hop Hrun Hin.
  rewrite !elem_of_cons, elem_of_nil in Hop.
  destruct Hop as [->|[->|[->|[->|[]]]]].
  - by eapply create_invoke_error.
  - by eapply read_invoke_error.
  - by eapply update_invoke_error.
  - by eapply delete_invoke_error.
Qed.

Lemma invocation_failure_is_fatal_witness :
  let d := Fixture.data "i-1" (VArr [VStr (Fixture.q "{'name':'web'}")]) (VStr "") in
  let st := Fixture.world [Fixture.reply "{'result':{}}";
                           InvokeErr "RequestError: send request failed"] in
  let run := resourceRemoteRead (rt := Fixture.runtime) d st in
  run.1.1.1 ≠ None ∧ run.1.1.2 = d.
Proof.
  intros d st run.
  apply (proj1 (proj2 (invocation_failure_is_fatal (rt := Fixture.runtime)))
           (resourceRemoteRead (rt := Fixture.runtime)) d st
           run.1.1.1 run.1.1.2 run.1.2 run.2
           (mkPayload "read" (Some {["name" := VStr "web"]}) (Some ∅) (Some ∅) false)
           "RequestError: send request failed").
  - apply list_elem_of_further, list_elem_of_here.
  - vm_compute. reflexivity.
  - vm_compute. repeat constructor.
Defined.

(** ** Previous arguments *)

(** The requests of a read, an update and a delete carry as state what
    [getPreviousArgs] returns. *)
Lemma read_requests `{rt : Runtime} `{sv : Service} d st :
  Forall (carries_state (getPreviousArgs d)) (resourceRemoteRead d st).2.
Proof.
  destruct (resourceRemoteRead d st) as [[[dg d'] st'] tr] eqn:Hrun.
  cbn [snd]. apply Forall_forall. intros ev Hin. unfold resourceRemoteRead in Hrun.
  run_op Hrun; find_event Hin; cbn [carries_state];
    first [done | by left | by right].
Qed.

Lemma update_requests `{rt : Runtime} `{sv : Service} d st :
  Forall (carries_state (getPreviousArgs d)) (resourceRemoteUpdate d st).2.
Proof.
  destruct (resourceRemoteUpdate d st) as [[[dg d'] st'] tr] eqn:Hrun.
  cbn [snd]. apply Forall_forall. intros ev Hin. unfold resourceRemoteUpdate in Hrun.
  run_op Hrun; find_event Hin; cbn [carries_state];
    first [done | by left | by right].
Qed.

Lemma delete_requests `{rt : Runtime} `{sv : Service} d st :
  Forall (carries_state (getPreviousArgs d)) (resourceRemoteDelete d st).2.
Proof.
  destruct (resourceRemoteDelete d st) as [[[dg d'] st'] tr] eqn:Hrun.
  cbn [snd]. apply Forall_forall. intros ev Hin. unfold resourceRemoteDelete in Hrun.
  run_op Hrun; find_event Hin; cbn [carries_state];
    first [done | by left | by right].
Qed.

(** Where the [args] attribute is a string (the single-string form),
    [getPreviousArgs] returns the object it decodes to. *)
Lemma getPreviousArgs_string `{rt : Runtime} id attrs s m :
  s ≠ "" →
  json_Unmarshal s = Ok (VMap m) →
  getPreviousArgs (mkData id (<["args" := VStr s]> attrs) false) = Some m.
Proof.
  intros Hs Hm. unfold getPreviousArgs, rd_GetOk, rd_Get. simpl.
  rewrite lookup_insert_eq. simpl.
  apply String.eqb_neq in Hs. rewrite Hs. simpl.
  unfold unmarshal_map. rewrite Hm. simpl. by rewrite (right_id_L ∅ (∪)).
Qed.

(** C3, where the code departs from it. The [args] attribute is a list of
    strings; for every such list [getPreviousArgs] returns the empty object,
    and every request of a read, an update and a delete carries that empty
    object as its state, whatever arguments the resource has. *)
Theorem previous_args_lost_for_list_args `{rt : Runtime} `{sv : Service}
    id attrs isNew (l : list value) st :
  let d := mkData id (<["args" := VArr l]> attrs) isNew in
  getPreviousArgs d = Some ∅
  ∧ Forall (carries_state (Some ∅)) (resourceRemoteRead d st).2
  ∧ Forall (carries_state (Some ∅)) (resourceRemoteUpdate d st).2
  ∧ Forall (carries_state (Some ∅)) (resourceRemoteDelete d st).2.
Proof.
  intros d.
  assert (getPreviousArgs d = Some ∅) as Hprev.
  { unfold getPreviousArgs, rd_GetOk, rd_Get, d. simpl.
    rewrite lookup_insert_eq. simpl. by repeat case_match. }
  split; [done|]. rewrite <-Hprev.
  auto using read_requests, update_requests, delete_requests.
Qed.

(** A read of an existing resource with the arguments [{name: web}]: the
    request has them as [args] and the empty object as [state]. *)
Example list_args_read_run :
  let d := Fixture.data "i-1" (VArr [VStr (Fixture.q "{'name':'web'}")]) (VStr "") in
  let st := Fixture.world [Fixture.reply "{'result':{}}";
                           Fixture.reply "{'result':{'id':'i-1'}}"] in
  ∃ o, (resourceRemoteRead (rt := Fixture.runtime) d st).2 !! 2 =
         Some (EInvoke (mkPayload "read" (Some {["name" := VStr "web"]})
                                  (Some ∅) (Some ∅) false) o).
Proof. eexists. by vm_compute. Qed.

(** ** Diff engine *)

(** Without prior arguments (the prior value of [args] is not a string, or
    is the empty string or the text of the empty object) the hook makes no
    remote call and forces no replacement. *)
Lemma diff_skipped_without_prior `{rt : Runtime} `{sv : Service} d st :
  (let '(s, ok) := as_string (df_GetChange d "args").1 in
   ok = false ∨ s = "" ∨ s = "{}") →
  (CustomizeDiff d st).2 = [] ∧ (CustomizeDiff d st).1.2 = st.
Proof.
  unfold CustomizeDiff, df_GetChange. cbn [fst].
  destruct (as_string (default VNil (df_old d !! "args"))) as [s ok].
  intros Hcreate.
  assert (negb ok || String.eqb s "" || String.eqb s "{}" = true) as Hc.
  { destruct Hcreate as [->|[->| ->]]; [done| |]; by destruct ok. }
  destruct (parseArgsJSON (df_Get d "args")); [|done].
  by rewrite Hc.
Qed.

(** With a prior value of [args] that is a string, not empty and not the
    text of the empty object, and with both argument values decoding, the
    hook sends one [diff] request with the new arguments as [args] and the
    prior ones as [state], and forces the replacement of [args] exactly when
    the reply asks for it. *)
Lemma diff_invoked_with_prior_string `{rt : Runtime} `{sv : Service}
    d st s args oldArgs :
  df_old d !! "args" = Some (VStr s) →
  s ≠ "" → s ≠ "{}" →
  parseArgsJSON (df_Get d "args") = Ok args →
  parseArgsJSON (VStr s) = Ok oldArgs →
  let request := mkPayload "diff" args oldArgs (decode_store (df_GetOk d "store")) false in
  let '(r, st1, t1) := invokeLambda request st in
  CustomizeDiff d st =
    match r with
    | Err e => (Some e, st1, t1)
    | Ok res =>
        if Replace res then
          (match ForceNew d "args" with
           | Some e => Some ("failed to mark 'args' for replacement: " +:+ e)
           | None => None
           end, st1, t1 ++ [EForceNew "args"])
        else (None, st1, t1)
    end.
Proof.
  intros Hold Hs1 Hs2 Hargs Hprior request.
  destruct (invokeLambda request st) as [[r st1] t1] eqn:Hinv.
  unfold CustomizeDiff, df_GetChange. rewrite Hargs, Hold.
  change (as_string (default VNil (Some (VStr s)))) with (s, true).
  cbn iota.
  apply String.eqb_neq in Hs1, Hs2. rewrite Hs1, Hs2. cbn [negb orb].
  rewrite Hprior. unfold mbind, M_bind. fold request. rewrite Hinv.
  unfold emit, mret, M_mret.
  destruct r as [res|e]; cbn; [|by rewrite app_nil_r].
  destruct (Replace res); cbn; [|by rewrite app_nil_r].
  by destruct (ForceNew d "args").
Qed.

(** C2, where the code departs from it. The [args] attribute is a list of
    strings, and so is its prior value; for every such prior value the hook
    takes the resource for a new one: it makes no remote call and forces no
    replacement, and its result is nil, or the error of decoding the new
    arguments. *)
Theorem diff_skipped_for_list_args `{rt : Runtime} `{sv : Service}
    new old (l : list value) st :
  CustomizeDiff (mkDiff new (<["args" := VArr l]> old)) st =
    (match parseArgsJSON (default VNil (new !! "args")) with
     | Err e => Some ("CustomizeDiff: " +:+ e)
     | Ok _ => None
     end, st, []).
Proof.
  unfold CustomizeDiff, df_GetChange, df_Get. cbn [df_new df_old].
  rewrite lookup_insert_eq. cbn.
  by destruct (parseArgsJSON (default VNil (new !! "args"))).
Qed.

(** The hook on an existing resource whose arguments change, with a remote
    function that would ask for a replacement: it is not asked. *)
Example list_args_diff_run :
  let d := mkDiff {["args" := VArr [VStr (Fixture.q "{'type':'large'}")]]}
                  {["args" := VArr [VStr (Fixture.q "{'type':'small'}")]]} in
  let st := Fixture.world [Fixture.reply "{'replace':true,'reason':'type changed'}"] in
  CustomizeDiff (rt := Fixture.runtime) d st = (None, st, []).
Proof. by vm_compute. Qed.

(** ** Schema cache *)

Lemma getSchemas_times_cached `{rt : Runtime} `{sv : Service} n st :
  once (client st) = true →
  getSchemas_times n st =
    (replicate n (schemas (client st), schemaErr (client st)), st, []).
Proof.
  intros Honce. induction n as [|n IH]; [done|].
  cbn [getSchemas_times replicate]. unfold mbind, M_bind.
  by rewrite getSchemas_cached, IH.
Qed.

Ltac keep_cache Honce Hrun :=
  run_op Hrun;
  repeat match goal with
  | H : once (client _) = true → _ |- _ => destruct (H Honce) as [-> ->]
  end;
  (split; [congruence|]);
  let Hin := fresh "Hin" in
  intros ? ? Hin; find_event Hin; done.

(** With the fetch attempted, the lifecycle operations leave the cache as it
    is and send no schema request. *)
Lemma operations_keep_cache `{rt : Runtime} `{sv : Service} op d st dg d' st' tr :
  op ∈ [resourceRemoteCreate; resourceRemoteRead;
        resourceRemoteUpdate; resourceRemoteDelete] →
  once (client st) = true →
  op d st = (dg, d', st', tr) →
  client st' = client st ∧ ∀ p o, EInvoke p o ∈ tr → Action p ≠ "schema".
Proof.
  intros Hop Honce Hrun.
  rewrite !elem_of_cons, elem_of_nil in Hop.
  destruct Hop as [->|[->|[->|[->|[]]]]].
  - unfold resourceRemoteCreate in Hrun. keep_cache Honce Hrun.
  - unfold resourceRemoteRead in Hrun. keep_cache Honce Hrun.
  - unfold resourceRemoteUpdate in Hrun. keep_cache Honce Hrun.
  - unfold resourceRemoteDelete in Hrun. keep_cache Honce Hrun.
Qed.

(** C4. Whatever the state of the client, a call of [getSchemas] makes at
    most one remote call, a schema request; if that request fails the error
    is what the call returns, and if it succeeds a schema pair is returned.
    Any number of later calls return the same result again, make no remote
    call and leave the client as it is. *)
Theorem schema_fetch_at_most_once `{rt : Runtime} `{sv : Service} st n :
  ∃ r st1 tr,
    getSchemas st = (r, st1, tr)
    ∧ (tr = [] ∨
       ∃ o, tr = [EInvoke schema_request o]
            ∧ match o with
              | Err e => r.2 = Some e
              | Ok _ => is_Some r.1
              end)
    ∧ getSchemas_times n st1 = (replicate n r, st1, []).
Proof.
  destruct (getSchemas st) as [[r st1] tr] eqn:Hrun.
  exists r, st1, tr. split; [done|].
  apply getSchemas_trace in Hrun as (Honce & -> & Htr & _).
  split; [|by apply getSchemas_times_cached].
  destruct Htr as [->|(o & -> & Herr & Hok)]; [by left|right].
  exists o. split; [done|]. destruct o as [resp|e]; cbn; eauto.
Qed.

(** A fetch that fails is not tried again: the script holds a schema that
    the second call would get, and the second call does not ask. *)
Example schema_error_is_cached :
  let st := Fixture.world [InvokeErr "RequestError: send request failed";
                           Fixture.reply "{'result':{'request':{'required':['name']}}}"] in
  let '(r1, st1, t1) := getSchemas (rt := Fixture.runtime) st in
  let '(r2, st2, t2) := getSchemas (rt := Fixture.runtime) st1 in
  r1 = (None, Some "RequestError: send request failed")
  ∧ r2 = r1 ∧ length t1 = 1 ∧ t2 = [] ∧ length (svc st2) = 1.
Proof. by vm_compute. Qed.

(** ** Remote invoker: the id of the response *)

Lemma parse_response_result_id `{rt : Runtime} out :
  ID (parse_response out) = result_id (parse_response out).
Proof.
  unfold parse_response, result_id. cbn [ID Result].
  repeat case_match; by simplify_eq.
Qed.

Lemma parse_response_ignores_id `{rt : Runtime} out v :
  parse_response (Some (<["id" := v]> out)) = parse_response (Some out)
  ∧ parse_response (Some (delete "id" out)) = parse_response (Some out).
Proof.
  unfold parse_response, gomap_get.
  by rewrite !lookup_insert_ne, !lookup_delete_ne by done.
Qed.

(** C1, as the code has it. For a reply that decodes to a JSON object, the
    invocation succeeds and the id of the response is the string under [id]
    of the response's result, the empty string if there is none; where the
    envelope's [result] is an object, it is that result. The top-level [id]
    of the envelope is not read: the response is the same with any other
    value there, or with none. *)
Theorem response_id_from_result `{rt : Runtime} `{sv : Service}
    p st bytes pl s' out :
  json_Marshal (payload_value p) = Ok bytes →
  Svc_Invoke (svc st) (LambdaName (client st)) bytes = (InvokeOutput None pl, s') →
  json_Unmarshal pl = Ok (VMap out) →
  ∃ r, invokeLambda p st = (Ok r, mkState (client st) s', [EInvoke p (Ok r)])
       ∧ ID r = result_id r
       ∧ (∀ res, out !! "result" = Some (VMap res) → Result r = Some res)
       ∧ (∀ v, parse_response (Some (<["id" := v]> out)) = r)
       ∧ parse_response (Some (delete "id" out)) = r.
Proof.
  intros Hm Hinv Hout. pose proof (invokeLambda_run p st) as Hrun.
  rewrite Hm, Hinv in Hrun. cbn [outcome] in Hrun.
  unfold unmarshal_map in Hrun. rewrite Hout in Hrun.
  cbn [default] in Hrun. rewrite (right_id_L ∅ (∪)) in Hrun.
  exists (parse_response (Some out)). split; [done|].
  split; [apply parse_response_result_id|].
  split; [|split].
  - intros res Hres. unfold parse_response, gomap_get. by rewrite Hres.
  - intros v. apply (proj1 (parse_response_ignores_id out v)).
  - apply (proj2 (parse_response_ignores_id out VNil)).
Qed.

Lemma response_id_from_result_witness :
  let p := mkPayload "create" (Some {["name" := VStr "web"]}) (Some ∅) (Some ∅) false in
  let st := Fixture.world [Fixture.reply "{'id':'abc','result':{'id':'i-1','status':'ok'}}"] in
  let out : gmap string value :=
    <["id" := VStr "abc"]>
      {["result" := VMap (<["id" := VStr "i-1"]> {["status" := VStr "ok"]})]} in
  ∃ r, invokeLambda (rt := Fixture.runtime) p st
         = (Ok r, Fixture.world [], [EInvoke p (Ok r)])
       ∧ ID r = result_id r
       ∧ (∀ res, out !! "result" = Some (VMap res) → Result r = Some res)
       ∧ (∀ v, parse_response (rt := Fixture.runtime) (Some (<["id" := v]> out)) = r)
       ∧ parse_response (rt := Fixture.runtime) (Some (delete "id" out)) = r.
Proof.
  intros p st out.
  apply (response_id_from_result (rt := Fixture.runtime) (sv := Fixture.service) p st
           (Fixture.print_value (payload_value p))
           (Fixture.q "{'id':'abc','result':{'id':'i-1','status':'ok'}}") [] out).
  - reflexivity.
  - vm_compute. reflexivity.
  - vm_compute. reflexivity.
Defined.

(** C1, as the specification states it, fails: the reply decodes to an
    object whose top-level [id] is [abc], the invocation succeeds, and the
    id of the response is empty. *)
Lemma response_id_not_envelope_id :
  let text := Fixture.q "{'id':'abc','result':{'status':'ok'}}" in
  let p := mkPayload "create" (Some {["name" := VStr "web"]}) (Some ∅) (Some ∅) false in
  let st := Fixture.world [InvokeOutput None text] in
  ∃ out r,
    json_Unmarshal (Runtime := Fixture.runtime) text = Ok (VMap out)
    ∧ envelope_id out = "abc"
    ∧ (invokeLambda (rt := Fixture.runtime) p st).1.1 = Ok r
    ∧ ID r = ""
    ∧ ID r ≠ envelope_id out.
Proof.
  intros text p st.
  exists (<["id" := VStr "abc"]> {["result" := VMap {["status" := VStr "ok"]}]}).
  exists (mkResponse "" (Some {["status" := VStr "ok"]}) None false "").
  repeat split; by vm_compute.
Qed.

(** ** Store codec *)

Lemma decode_store_set `{rt : Runtime} d bytes :
  decode_store (rd_GetOk (rd_Set d "store" (VStr bytes)) "store") =
    if String.eqb bytes "" then Some ∅ else (unmarshal_map bytes (Some ∅)).1.
Proof.
  unfold decode_store, rd_GetOk, rd_Get, rd_Set. cbn [rd_attrs].
  rewrite lookup_insert_eq. cbn.
  by destruct (String.eqb bytes "").
Qed.

(** What [decode_store] makes of an attribute that holds a text: the empty
    text is not decoded; a text of the JSON null leaves a nil store; the
    error of the decoder is dropped, so the store is what the decoder left
    in the empty object it was given. *)
Lemma decode_store_text `{rt : Runtime} str :
  decode_store (VStr str, true) =
    if String.eqb str "" then Some ∅
    else match json_Unmarshal str with
         | Ok (VMap m) => Some m
         | Ok VNil => None
         | Ok _ => Some ∅
         | Err _ => json_Unmarshal_partial str (Some ∅)
         end.
Proof.
  unfold decode_store, unmarshal_map. cbn.
  destruct (String.eqb str ""); [done|].
  destruct (json_Unmarshal str) as [[]|]; cbn; try done.
  by rewrite (right_id_L ∅ (∪)).
Qed.

(** C9, as the code has it. A nil store is written as the empty string,
    which decodes to the empty object. A store that is not nil, the empty
    object among them, is written as the text [json.Marshal] gives for it,
    and where that text decodes to the store again, decoding the attribute
    gives the store back. A text that does not decode is never an error:
    where it is JSON of another kind than an object or null the decoded
    store is the empty object, and where the decoder reports an error the
    decoded store is what the decoder had stored in the empty object by
    then, which is the empty object itself only if it had stored nothing. *)
Theorem store_round_trip `{rt : Runtime} d :
  (setStoreAsJSONString d None = (rd_Set d "store" (VStr ""), None)
   ∧ decode_store (rd_GetOk (rd_Set d "store" (VStr "")) "store") = Some ∅)
  ∧ (∀ s bytes,
       json_Marshal (VMap s) = Ok bytes →
       bytes ≠ "" →
       json_Unmarshal bytes = Ok (VMap s) →
       setStoreAsJSONString d (Some s) = (rd_Set d "store" (VStr bytes), None)
       ∧ decode_store (rd_GetOk (rd_Set d "store" (VStr bytes)) "store") = Some s)
  ∧ (∀ str v,
       json_Unmarshal str = Ok v →
       v ≠ VNil →
       (∀ m, v ≠ VMap m) →
       decode_store (VStr str, true) = Some ∅)
  ∧ (∀ str e,
       json_Unmarshal str = Err e →
       str ≠ "" →
       decode_store (VStr str, true) = json_Unmarshal_partial str (Some ∅)
       ∧ (json_Unmarshal_partial str (Some ∅) = Some ∅ →
          decode_store (VStr str, true) = Some ∅)).
Proof.
  split; [|split; [|split]].
  - split; [done|]. by rewrite decode_store_set.
  - intros s bytes Hm Hne Hu. unfold setStoreAsJSONString. rewrite Hm.
    split; [done|]. rewrite decode_store_set.
    apply String.eqb_neq in Hne. rewrite Hne.
    unfold unmarshal_map. rewrite Hu. cbn. by rewrite (right_id_L ∅ (∪)).
  - intros str v Hu Hnil Hmap. rewrite decode_store_text, Hu.
    destruct (String.eqb str ""); [done|].
    destruct v; try done. by destruct (Hmap m).
  - intros str e Hu Hne. rewrite decode_store_text, Hu.
    apply String.eqb_neq in Hne. rewrite Hne. split; [done|]. by intros ->.
Qed.

Lemma store_round_trip_witness :
  let d := Fixture.data "i-1" (VArr []) (VStr "") in
  let s : gmap string value := <["k" := VNum 1]> {["tags" := VArr [VStr "a"; VNil]]} in
  let bytes := Fixture.print_value (VMap s) in
  setStoreAsJSONString (rt := Fixture.runtime) d (Some s)
    = (rd_Set d "store" (VStr bytes), None)
  ∧ decode_store (rt := Fixture.runtime)
      (rd_GetOk (rd_Set d "store" (VStr bytes)) "store") = Some s.
Proof.
  intros d s bytes.
  apply (proj1 (proj2 (store_round_trip (rt := Fixture.runtime) d)) s bytes).
  - reflexivity.
  - by vm_compute.
  - vm_compute. reflexivity.
Defined.

(** C9, as the specification states it, fails: the empty store that is not
    nil is written as the text of the empty object, not as the empty
    string. *)
Lemma empty_store_not_empty_string :
  let d := Fixture.data "i-1" (VArr []) (VStr "") in
  let d' := (setStoreAsJSONString (rt := Fixture.runtime) d (Some ∅)).1 in
  rd_Get d' "store" = VStr "{}" ∧ rd_Get d' "store" ≠ VStr "".
Proof. by vm_compute. Qed.

(** C9, the last part: with the numbers of Go, a store text with a number
    out of the range of float64 makes the decoder report an error, which
    [decode_store] drops; the store it returns holds the other members. *)
Example failed_decode_keeps_members :
  let big := pretty (10 ^ 400)%Z in
  let text := Fixture.q "{'a':" +:+ big +:+ Fixture.q ",'b':2}" in
  (∃ e, json_Unmarshal (Runtime := Fixture.float64_runtime) text = Err e)
  ∧ decode_store (rt := Fixture.float64_runtime) (VStr text, true)
      = Some (<["a" := VNil]> {["b" := VNum 2]})
  ∧ decode_store (rt := Fixture.float64_runtime) (VStr text, true) ≠ Some ∅.
Proof.
  intros big text. split; [|split].
  - eexists. vm_compute. reflexivity.
  - by vm_compute.
  - by vm_compute.
Qed.

(** * Further properties *)

(** ** The merge, continued *)

Lemma merged_entry_absent v : merged_entry None v = v.
Proof. by destruct v. Qed.

Lemma deepMerge_empty_l src : deepMerge ∅ src = src.
Proof.
  apply map_eq. intros k. rewrite deepMerge_lookup, lookup_empty.
  destruct (src !! k); [|done]. by rewrite merged_entry_absent.
Qed.

(** A merge drops no key and adds none of its own. *)
Theorem deepMerge_keys (dst src : gmap string value) :
  dom (deepMerge dst src) = dom dst ∪ dom src.
Proof.
  apply set_eq. intros k.
  rewrite elem_of_union, !elem_of_dom, deepMerge_lookup.
  destruct (src !! k) as [v|] eqn:Hsrc.
  - split; [by right; eauto|by eauto].
  - split; [by left|]. intros [?|[? ?]]; done.
Qed.

Lemma value_size_lookup (m : gmap string value) k v :
  m !! k = Some v → value_size v < value_size (VMap m).
Proof.
  intros Hk. cbn [value_size].
  rewrite <-(insert_delete_id m k v Hk).
  rewrite map_fold_insert_L.
  - lia.
  - intros. lia.
  - apply lookup_delete_eq.
Qed.

(** Merging a fragment a second time changes nothing. *)
Lemma deepMerge_absorb (b a : gmap string value) :
  deepMerge (deepMerge a b) b = deepMerge a b.
Proof.
  remember (value_size (VMap b)) as n eqn:Hn.
  revert b a Hn. induction n as [n IH] using lt_wf_ind. intros b a ->.
  assert (∀ (vm : gmap string value) k, b !! k = Some (VMap vm) →
            ∀ x, deepMerge (deepMerge x vm) vm = deepMerge x vm) as Hsub.
  { intros vm k Hk x. eapply IH; [|done]. by eapply value_size_lookup. }
  apply map_eq. intros k. rewrite !deepMerge_lookup.
  destruct (b !! k) as [v|] eqn:Hb; [|done]. f_equal.
  destruct v as [| | | | |vm]; try done.
  unfold merged_entry at 1.
  destruct (a !! k) as [[| | | | |dm]|] eqn:Ha; cbn [merged_entry].
  1-5,7: f_equal; rewrite <-(deepMerge_empty_l vm) at 1 3; by eapply Hsub.
  f_equal. by eapply Hsub.
Qed.

Section MergerMore.
Context `{rt : Runtime}.

Lemma merge_fragment_twice final el :
  merge_fragment (merge_fragment final el) el = merge_fragment final el.
Proof.
  destruct el; try done. unfold merge_fragment.
  destruct (unmarshal_map s None) as [[m|] [e|]]; try done.
  apply deepMerge_absorb.
Qed.

End MergerMore.

(** A fragment repeated right after itself in the list of arguments counts
    once. *)
Theorem repeated_fragment_counts_once `{rt : Runtime} (l1 l2 : list value) el :
  parseArgsJSON (VArr (l1 ++ el :: el :: l2)) = parseArgsJSON (VArr (l1 ++ el :: l2)).
Proof.
  unfold parseArgsJSON. do 2 f_equal.
  rewrite !fold_left_app. cbn [fold_left].
  by rewrite merge_fragment_twice.
Qed.

(** An element of the list of arguments that is not a string, or whose text
    does not decode to a JSON object, is passed over: the merged arguments
    are those of the list without it, and no error is raised. *)
Theorem bad_fragment_is_skipped `{rt : Runtime} (l1 l2 : list value) bad :
  (∀ s o, bad = VStr s → json_Unmarshal s ≠ Ok (VMap o)) →
  parseArgsJSON (VArr (l1 ++ bad :: l2)) = parseArgsJSON (VArr (l1 ++ l2)).
Proof.
  intros Hbad. unfold parseArgsJSON. do 2 f_equal.
  rewrite !fold_left_app. cbn [fold_left].
  by rewrite (merge_fragment_skipped _ _ Hbad).
Qed.

Lemma bad_fragment_is_skipped_witness :
  parseArgsJSON (rt := Fixture.runtime)
    (VArr ([VStr (Fixture.q "{'spot':false}")]
           ++ VStr "user data problem sasa"
           :: [VStr (Fixture.q "{'tags':{}}")]))
  = parseArgsJSON (rt := Fixture.runtime)
      (VArr ([VStr (Fixture.q "{'spot':false}")] ++ [VStr (Fixture.q "{'tags':{}}")])).
Proof.
  apply (bad_fragment_is_skipped (rt := Fixture.runtime)).
  intros s o Hs. injection Hs as <-. by vm_compute.
Defined.

(** The list form with one fragment against the single-string form: they
    agree where the string decodes to a JSON object; where the string form
    fails, or yields nil for the text [null], the list form yields the empty
    object. *)
Theorem one_fragment_list_and_string_form `{rt : Runtime} (s : string) :
  parseArgsJSON (VArr [VStr s]) =
    match parseArgsJSON (VStr s) with
    | Ok (Some o) => Ok (Some o)
    | Ok None | Err _ => Ok (Some ∅)
    end.
Proof.
  unfold parseArgsJSON. cbn [fold_left]. unfold merge_fragment.
  destruct (unmarshal_map s None) as [[m|] [e|]]; try done.
  by rewrite deepMerge_empty_l.
Qed.

Section LastWriter.
Context `{rt : Runtime}.

Lemma merge_fragment_no_key final el k :
  (∀ s o, el = VStr s → json_Unmarshal s = Ok (VMap o) → o !! k = None) →
  merge_fragment final el !! k = final !! k.
Proof.
  intros Hel. destruct el; try done. unfold merge_fragment, unmarshal_map.
  destruct (json_Unmarshal s) as [[]|] eqn:Hs; try done.
  - cbn. rewrite (right_id_L ∅ (∪)), deepMerge_lookup.
    by rewrite (Hel s m eq_refl Hs).
  - by destruct (json_Unmarshal_partial s None).
Qed.

Lemma merge_fragments_no_key l final k :
  Forall (λ el, ∀ s o, el = VStr s → json_Unmarshal s = Ok (VMap o) → o !! k = None) l →
  fold_left merge_fragment l final !! k = final !! k.
Proof.
  intros Hl. revert final. induction Hl as [|el l Hel _ IH]; intros final; [done|].
  cbn [fold_left]. by rewrite IH, merge_fragment_no_key.
Qed.

End LastWriter.

(** The last fragment that has a key decides it when its value there is not
    an object: whatever the fragments before it hold, the merged arguments
    have that value at the key. *)
Theorem last_fragment_value_wins `{rt : Runtime}
    (l1 l2 : list value) (s : string) (o : gmap string value) (k : string) (v : value) :
  json_Unmarshal s = Ok (VMap o) →
  o !! k = Some v →
  (∀ m, v ≠ VMap m) →
  Forall (λ el, ∀ s' o', el = VStr s' → json_Unmarshal s' = Ok (VMap o') → o' !! k = None) l2 →
  ∃ merged, parseArgsJSON (VArr (l1 ++ VStr s :: l2)) = Ok (Some merged)
            ∧ merged !! k = Some v.
Proof.
  intros Hs Hk Hv Hl2. eexists. split; [done|].
  rewrite fold_left_app. cbn [fold_left].
  rewrite (merge_fragments_no_key _ _ _ Hl2), (merge_fragment_object _ _ _ Hs).
  rewrite deepMerge_lookup, Hk. f_equal.
  destruct v; try done. by destruct (Hv m).
Qed.

Lemma last_fragment_value_wins_witness :
  ∃ merged,
    parseArgsJSON (rt := Fixture.runtime)
      (VArr ([VStr (Fixture.q "{'a':{'x':1},'b':1}")]
             ++ VStr (Fixture.q "{'a':5}") :: [VStr (Fixture.q "{'b':2}")]))
    = Ok (Some merged)
    ∧ merged !! "a" = Some (VNum 5).
Proof.
  apply (last_fragment_value_wins (rt := Fixture.runtime) _ _ _ {["a" := VNum 5]}).
  - vm_compute. reflexivity.
  - reflexivity.
  - discriminate.
  - repeat constructor. intros s' o' Hs' Ho'. injection Hs' as <-.
    vm_compute in Ho'. injection Ho' as <-. reflexivity.
Defined.

(** ** The validator *)

Lemma string_app_assoc (s1 s2 s3 : string) : (s1 +:+ s2) +:+ s3 = s1 +:+ s2 +:+ s3.
Proof.
  induction s1 as [|a s1 IH]; [done|].
  change (String a ((s1 +:+ s2) +:+ s3) = String a (s1 +:+ s2 +:+ s3)).
  by rewrite IH.
Qed.

Lemma string_app_nil_r (s : string) : s +:+ "" = s.
Proof.
  induction s as [|a s IH]; [done|].
  change (String a (s +:+ "") = String a s). by rewrite IH.
Qed.

Lemma contains_here (part post : string) : contains (part +:+ post) part.
Proof. by exists ""%string, post. Qed.

Lemma contains_app_r (s t part : string) : contains t part → contains (s +:+ t) part.
Proof.
  intros (pre & post & ->). exists (s +:+ pre), post. by rewrite string_app_assoc.
Qed.

Lemma contains_app_l (s t part : string) : contains s part → contains (s +:+ t) part.
Proof.
  intros (pre & post & ->). exists pre, (post +:+ t).
  by rewrite !string_app_assoc.
Qed.

Lemma contains_concat (f : string → string) (l : list string) x :
  x ∈ l → contains (String.concat "" (map f l)) (f x).
Proof.
  induction 1 as [x l|x y l Hin IH].
  - destruct l as [|z l]; cbn [map String.concat].
    + rewrite <-(string_app_nil_r (f x)) at 1. apply contains_here.
    + apply contains_here.
  - destruct l as [|z l]; [by apply elem_of_nil in Hin|].
    cbn [map String.concat]. apply contains_app_r.
    change (contains (String.concat "" (map f (z :: l))) (f x)). apply IH.
Qed.

Lemma verb_free_app (s t : string) :
  verb_free (s +:+ t) = verb_free s && verb_free t.
Proof.
  induction s as [|a s IH]; [done|].
  change (verb_free (String a (s +:+ t)) = verb_free (String a s) && verb_free t).
  cbn [verb_free]. rewrite IH. by rewrite andb_assoc.
Qed.

Lemma verb_free_concat (f : string → string) (l : list string) :
  Forall (λ x, verb_free (f x) = true) l →
  verb_free (String.concat "" (map f l)) = true.
Proof.
  induction 1 as [|x l Hx Hl IH]; [done|].
  destruct l as [|y l]; [done|].
  cbn [map String.concat]. rewrite !verb_free_app, Hx. cbn.
  exact IH.
Qed.

Lemma errorf_verb_free (s : string) : verb_free s = true → Fixture.errorf s = s.
Proof.
  induction s as [|a s IH]; [done|]. cbn [verb_free Fixture.errorf].
  destruct (Ascii.eqb a "%"%char); [done|]. cbn. intros Hs. by rewrite IH.
Qed.

(** The validator accepts exactly when there is no schema to check against
    (a nil or empty one) or the schema library reports no violation. When it
    reports violations the validator builds a text that names the side and
    lists every one of them, each on a line of its own, and hands that text
    to [fmt.Errorf] as the format: the error is what [fmt.Errorf] makes of
    it. Where neither the side nor a violation holds a percent sign the text
    has no verb, so with an [fmt.Errorf] that leaves such a format as it is
    the error is the text itself. *)
Theorem validation_reports_every_violation `{rt : Runtime} `{sv : Service}
    (schema : gomap) (doc : value) (side : string) (st : cstate) :
  ((validateWithSchema schema doc side st).1.1 = None ↔
     gomap_len schema = 0
     ∨ ∃ sch, schema = Some sch ∧ gojsonschema_Validate sch doc = Ok [])
  ∧ (∀ sch errs,
       schema = Some sch → size sch ≠ 0 →
       gojsonschema_Validate sch doc = Ok errs → errs ≠ [] →
       ∃ format,
         (validateWithSchema schema doc side st).1.1 = Some (fmt_Errorf format)
         ∧ contains format side
         ∧ (∀ desc, desc ∈ errs → contains format ("- " +:+ desc +:+ nl))
         ∧ (verb_free side = true →
            Forall (λ desc, verb_free desc = true) errs →
            verb_free format = true
            ∧ ((∀ text, verb_free text = true → fmt_Errorf text = text) →
               fmt_Errorf format = format))).
Proof.
  unfold validateWithSchema, mbind, M_bind, emit, mret, M_mret. split.
  - destruct schema as [sch|]; cbn; [|by intuition].
    destruct (Nat.eqb_spec (size sch) 0) as [Hz|Hz]; cbn; [by intuition|].
    destruct (gojsonschema_Validate sch doc) as [[|d errs]|e] eqn:Hv; cbn.
    + split; [|done]. intros _. right. eauto.
    + split; [done|]. intros [?|(? & ? & ?)]; [done|]. congruence.
    + split; [done|]. intros [?|(? & ? & ?)]; [done|]. congruence.
  - intros sch errs -> Hz Hv Hne. cbn.
    apply Nat.eqb_neq in Hz. rewrite Hz, Hv.
    destruct errs as [|d errs]; [done|]. cbn [fst snd].
    eexists. split; [done|]. split; [apply contains_here|]. split.
    + intros desc Hdesc. do 3 apply contains_app_r.
      by apply (contains_concat (λ desc, "- " +:+ desc +:+ nl)).
    + intros Hside Herrs.
      assert (verb_free (side +:+ " failed schema validation:" +:+ nl +:+
                String.concat "" (map (λ desc, "- " +:+ desc +:+ nl) (d :: errs)))
              = true) as Hfree.
      { rewrite !verb_free_app, Hside. cbn [andb].
        change (verb_free " failed schema validation:") with true.
        change (verb_free nl) with true. cbn [andb].
        apply verb_free_concat. eapply Forall_impl; [exact Herrs|].
        intros desc Hdesc. cbn beta. rewrite !verb_free_app, Hdesc. done. }
      split; [exact Hfree|]. intros Hfmt. by apply Hfmt.
Qed.

Lemma validation_reports_every_violation_witness :
  let schema : gmap string value := {["required" := VArr [VStr "name"; VStr "size"]]} in
  ∃ msg, (validateWithSchema (rt := Fixture.runtime) (Some schema) (VMap ∅) "request"
            (Fixture.world [])).1.1 = Some msg
         ∧ contains msg "request"
         ∧ ∀ desc, desc ∈ ["name is required"; "size is required"] →
                   contains msg ("- " +:+ desc +:+ nl).
Proof.
  intros schema.
  destruct (proj2 (validation_reports_every_violation (rt := Fixture.runtime)
                     (Some schema) (VMap ∅) "request" (Fixture.world []))
              schema ["name is required"; "size is required"])
    as (format & Herr & Hside & Hlines & Hfree).
  - reflexivity.
  - by vm_compute.
  - vm_compute. reflexivity.
  - discriminate.
  - destruct Hfree as [_ Hsame]; [reflexivity|by repeat constructor|].
    exists format. split; [|by split].
    etrans; [exact Herr|]. f_equal. apply Hsame. exact errorf_verb_free.
Defined.

(** A violation that holds a percent sign does not reach the error as it
    is: [fmt.Errorf] reads the verb in it. *)
Example violation_with_verb_is_rewritten :
  let schema : gmap string value := {["required" := VArr [VStr "100%d"]]} in
  gojsonschema_Validate (Runtime := Fixture.runtime) schema (VMap ∅)
    = Ok ["100%d is required"]
  ∧ (validateWithSchema (rt := Fixture.runtime) (Some schema) (VMap ∅) "request"
       (Fixture.world [])).1.1
    = Some ("request failed schema validation:" +:+ nl +:+
            "- 100%!d(MISSING) is required" +:+ nl).
Proof. by vm_compute. Qed.

(** ** The result attribute *)

(** What [mapStringValues] returns has the keys of its input and strings
    for all its values; a map of strings comes back as it is, so the
    function applied to its own output changes nothing. *)
Theorem mapStringValues_strings `{rt : Runtime} (input : gomap) (m : gmap string string) :
  dom (mapStringValues input) = dom (default ∅ input)
  ∧ map_Forall (λ _ v, ∃ s, v = VStr s) (mapStringValues input)
  ∧ mapStringValues (Some (VStr <$> m)) = VStr <$> m
  ∧ mapStringValues (Some (mapStringValues input)) = mapStringValues input.
Proof.
  unfold mapStringValues. split; [|split; [|split]].
  - apply dom_fmap_L.
  - intros k v. rewrite lookup_fmap.
    destruct (default ∅ input !! k) as [[]|]; cbn; intros; simplify_eq; eauto.
  - simpl (default _ _). rewrite <-map_fmap_compose. by apply map_fmap_ext.
  - simpl (default _ _). rewrite <-map_fmap_compose. apply map_fmap_ext.
    intros k v _. by destruct v.
Qed.

(** What [flattenMapValues] returns has the keys of its input and no map or
    array among its values; values that are neither come back as they are,
    so the function applied to its own output changes nothing. *)
Theorem flattenMapValues_flat `{rt : Runtime} (input : gomap) :
  dom (flattenMapValues input) = dom (default ∅ input)
  ∧ map_Forall (λ _ v, is_flat v) (flattenMapValues input)
  ∧ (∀ k v, gomap_get input k = Some v → is_flat v →
            flattenMapValues input !! k = Some v)
  ∧ flattenMapValues (Some (flattenMapValues input)) = flattenMapValues input.
Proof.
  unfold flattenMapValues. split; [|split; [|split]].
  - apply dom_fmap_L.
  - intros k v. rewrite lookup_fmap.
    destruct (default ∅ input !! k) as [[]|]; cbn; intros; simplify_eq; try done;
      by destruct (json_Marshal _).
  - intros k v Hk Hflat. rewrite lookup_fmap.
    assert (default ∅ input !! k = Some v) as ->.
    { destruct input; [done|]. by cbn in Hk. }
    by destruct v.
  - simpl (default _ (Some _)). rewrite <-map_fmap_compose. apply map_fmap_ext.
    intros k v _. destruct v; cbn; try done; by destruct (json_Marshal _).
Qed.

Lemma flattenMapValues_flat_witness :
  let input : gmap string value :=
    <["name" := VStr "web"]> {["tags" := VMap {["env" := VStr "dev"]}]} in
  flattenMapValues (rt := Fixture.runtime) (Some input) !! "name" = Some (VStr "web").
Proof.
  intros input.
  apply (proj1 (proj2 (proj2 (flattenMapValues_flat (rt := Fixture.runtime) (Some input))))).
  - reflexivity.
  - exact I.
Defined.

(** ** The reply envelope *)

(** A reply may give its result and its store as JSON text instead of as
    objects: where the text decodes to an object the response is the same as
    for the object. A result text that does not decode counts as the empty
    result, with an empty id, whatever the decoder had stored: the code puts
    a fresh map in its place. The error of a store text is dropped instead,
    and the store is what the decoder left in the nil map it was given: no
    store where the text is JSON of another kind than an object, and what
    the decoder had stored where it reports an error. Neither is an error of
    the invocation. *)
Theorem reply_fields_as_text `{rt : Runtime} (out : gmap string value) (s : string) :
  (∀ m, json_Unmarshal s = Ok (VMap m) →
        (out !! "result" = Some (VStr s) →
         parse_response (Some out) = parse_response (Some (<["result" := VMap m]> out)))
        ∧ (out !! "store" = Some (VStr s) →
           parse_response (Some out) = parse_response (Some (<["store" := VMap m]> out))))
  ∧ (∀ v, json_Unmarshal s = Ok v → v ≠ VNil → (∀ m, v ≠ VMap m) →
          (out !! "result" = Some (VStr s) →
           Result (parse_response (Some out)) = Some ∅ ∧ ID (parse_response (Some out)) = "")
          ∧ (out !! "store" = Some (VStr s) →
             RStore (parse_response (Some out)) = None))
  ∧ (∀ e, json_Unmarshal s = Err e →
          (out !! "result" = Some (VStr s) →
           Result (parse_response (Some out)) = Some ∅ ∧ ID (parse_response (Some out)) = "")
          ∧ (out !! "store" = Some (VStr s) →
             RStore (parse_response (Some out)) = json_Unmarshal_partial s None)).
Proof.
  split; [|split].
  - intros m Hs. split; intros Hout; unfold parse_response, gomap_get;
      rewrite Hout, lookup_insert_eq, !lookup_insert_ne by done;
      unfold unmarshal_map; rewrite Hs; cbn; by rewrite (right_id_L ∅ (∪)).
  - intros v Hs Hnil Hmap. split; intros Hout; unfold parse_response, gomap_get;
      rewrite Hout; unfold unmarshal_map; rewrite Hs;
      (destruct v; try done; by destruct (Hmap m)).
  - intros e Hs. split; intros Hout; unfold parse_response, gomap_get;
      rewrite Hout; unfold unmarshal_map; rewrite Hs; by cbn.
Qed.

Lemma reply_fields_as_text_witness :
  let s := Fixture.q "{'id':'i-1'}" in
  let out : gmap string value := {["result" := VStr s]} in
  parse_response (rt := Fixture.runtime) (Some out)
  = parse_response (rt := Fixture.runtime)
      (Some (<["result" := VMap {["id" := VStr "i-1"]}]> out)).
Proof.
  intros s out.
  assert (json_Unmarshal (Runtime := Fixture.runtime) s
          = Ok (VMap {["id" := VStr "i-1"]})) as Hs by (vm_compute; reflexivity).
  assert (out !! "result" = Some (VStr s)) as Hout by reflexivity.
  exact (proj1 (proj1 (reply_fields_as_text (rt := Fixture.runtime) out s) _ Hs) Hout).
Defined.

(** ** Lifecycle operations, continued *)

Lemma validateWithSchema_result `{rt : Runtime} `{sv : Service}
    schema doc side st verr st' tr st0 :
  validateWithSchema schema doc side st = (verr, st', tr) →
  (validateWithSchema schema doc side st0).1.1 = verr.
Proof.
  unfold validateWithSchema, mbind, M_bind, emit, mret, M_mret.
  intros Hrun. repeat case_match; by simplify_eq.
Qed.

Ltac keep_validation :=
  repeat match goal with
  | H : validateWithSchema ?s ?d ?side ?st = (?v, _, _) |- _ =>
      lazymatch goal with
      | _ : ∀ st0, (validateWithSchema s d side st0).1.1 = v |- _ => fail
      | _ => pose proof (λ st0, validateWithSchema_result _ _ _ _ _ _ _ st0 H)
      end
  end.

Ltac run_op_checked H :=
  unfold mbind, M_bind, mret, M_mret in H;
  repeat case_match; simplify_eq; keep_validation; run_sub.

Section Requests.
Context `{rt : Runtime} `{sv : Service}.

Ltac request_shape :=
  repeat split;
  [ eexists; split; [eassumption|reflexivity]
  | eexists; repeat split; try (symmetry; eassumption); eauto; congruence
  | first [ by eexists [], _ | by eexists [_], _ | by eexists [], [] | by eexists [_], [] ] ].

Ltac request_lemma Hrun Hin :=
  run_op_checked Hrun; find_event Hin; try done;
  unfold request_of; cbn [Args]; request_shape.

Lemma create_request d st dg d' st' tr p r :
  resourceRemoteCreate d st = (dg, d', st', tr) →
  EInvoke p r ∈ tr → Action p ≠ "schema" →
  request_of "create" d st' tr p r.
Proof.
  intros Hrun Hin Hp. unfold resourceRemoteCreate in Hrun. request_lemma Hrun Hin.
Qed.

Lemma read_request d st dg d' st' tr p r :
  resourceRemoteRead d st = (dg, d', st', tr) →
  EInvoke p r ∈ tr → Action p ≠ "schema" →
  request_of "read" d st' tr p r.
Proof.
  intros Hrun Hin Hp. unfold resourceRemoteRead in Hrun. request_lemma Hrun Hin.
Qed.

Lemma update_request d st dg d' st' tr p r :
  resourceRemoteUpdate d st = (dg, d', st', tr) →
  EInvoke p r ∈ tr → Action p ≠ "schema" →
  request_of "update" d st' tr p r.
Proof.
  intros Hrun Hin Hp. unfold resourceRemoteUpdate in Hrun. request_lemma Hrun Hin.
Qed.

Lemma delete_request d st dg d' st' tr p r :
  resourceRemoteDelete d st = (dg, d', st', tr) →
  EInvoke p r ∈ tr → Action p ≠ "schema" →
  request_of "delete" d st' tr p r.
Proof.
  intros Hrun Hin Hp. unfold resourceRemoteDelete in Hrun. request_lemma Hrun Hin.
Qed.

End Requests.

Ltac each_operation Hop :=
  unfold operations in Hop;
  rewrite !elem_of_cons, elem_of_nil in Hop;
  destruct Hop as [Hop|[Hop|[Hop|[Hop|[]]]]]; injection Hop as -> ->.

(** A lifecycle request is sent only after the schema fetch has succeeded
    and the merged arguments have passed the request schema, right after
    that check; it carries the operation's action, the merged arguments, the
    state (empty on create, the previous arguments otherwise), the store
    decoded from the [store] attribute and the planning flag. *)
Theorem request_is_checked_and_complete `{rt : Runtime} `{sv : Service}
    action op d st dg d' st' tr p r :
  (action, op) ∈ operations →
  op d st = (dg, d', st', tr) →
  EInvoke p r ∈ tr →
  Action p ≠ "schema" →
  request_of action d st' tr p r.
Proof.
  intros Hop Hrun Hin Hp. each_operation Hop.
  - by eapply create_request.
  - by eapply read_request.
  - by eapply update_request.
  - by eapply delete_request.
Qed.

Section Outcomes.
Context `{rt : Runtime} `{sv : Service}.

Lemma setStoreAsJSONString_failed d store d' e :
  setStoreAsJSONString d store = (d', Some e) →
  d' = d ∧ ∃ m e', store = Some m ∧ json_Marshal (VMap m) = Err e'
                  ∧ e = "could not marshal store as JSON: " +:+ e'.
Proof.
  unfold setStoreAsJSONString. intros Hset.
  repeat case_match; simplify_eq. eauto 8.
Qed.

Ltac failed_lemma Hrun :=
  run_op Hrun; try (by left); right;
  match goal with
  | Hset : setStoreAsJSONString _ _ = (_, Some _) |- _ =>
      apply setStoreAsJSONString_failed in Hset as (-> & ? & ? & ? & ? & ->)
  end;
  split_traces; unfold store_write_failed; eexists _, _, _, _;
  (split; [|split; [eassumption|split; [eassumption|split; reflexivity]]]);
  rewrite ?elem_of_app, ?elem_of_cons; auto 10.

Lemma create_failed d st e d' st' tr :
  resourceRemoteCreate d st = (Some e, d', st', tr) →
  d' = d ∨ store_write_failed d d' e tr.
Proof. intros Hrun. unfold resourceRemoteCreate in Hrun. failed_lemma Hrun. Qed.

Lemma read_failed d st e d' st' tr :
  resourceRemoteRead d st = (Some e, d', st', tr) →
  d' = d ∨ store_write_failed d d' e tr.
Proof. intros Hrun. unfold resourceRemoteRead in Hrun. failed_lemma Hrun. Qed.

Lemma update_failed d st e d' st' tr :
  resourceRemoteUpdate d st = (Some e, d', st', tr) →
  d' = d ∨ store_write_failed d d' e tr.
Proof. intros Hrun. unfold resourceRemoteUpdate in Hrun. failed_lemma Hrun. Qed.

Lemma delete_failed d st e d' st' tr :
  resourceRemoteDelete d st = (Some e, d', st', tr) →
  d' = d ∨ store_write_failed d d' e tr.
Proof. intros Hrun. unfold resourceRemoteDelete in Hrun. failed_lemma Hrun. Qed.

End Outcomes.

(** An operation that returns an error leaves the resource data as they
    were, with one exception: when the reply was accepted and its store
    cannot be marshalled, the id and the result of the reply are already
    written. *)
Theorem failed_operation_writes_nothing `{rt : Runtime} `{sv : Service}
    action op d st e d' st' tr :
  (action, op) ∈ operations →
  op d st = (Some e, d', st', tr) →
  d' = d ∨ store_write_failed d d' e tr.
Proof.
  intros Hop Hrun. each_operation Hop.
  - by eapply create_failed.
  - by eapply read_failed.
  - by eapply update_failed.
  - by eapply delete_failed.
Qed.

Section Accepted.
Context `{rt : Runtime} `{sv : Service}.

Ltac accepted_lemma Hrun :=
  run_op_checked Hrun; split_traces;
  eexists _, _;
  (split; [rewrite ?elem_of_app, ?elem_of_cons; auto 10|]);
  (split; [reflexivity|]);
  first [ by left
        | right; unfold accepted, written; repeat split;
          [ done
          | match goal with
            | Hs : Some ?l = schemas _ |- _ => exists l; split; [congruence|auto]
            end
          | done ] ].

Lemma create_accepted d st d' st' tr :
  resourceRemoteCreate d st = (None, d', st', tr) →
  ∃ p res, EInvoke p (Ok res) ∈ tr ∧ Action p = "create"
           ∧ (("create" = "read" ∧ ID res = "" ∧ d' = rd_SetId d "")
              ∨ accepted d d' st' res).
Proof. intros Hrun. unfold resourceRemoteCreate in Hrun. accepted_lemma Hrun. Qed.

Lemma read_accepted d st d' st' tr :
  resourceRemoteRead d st = (None, d', st', tr) →
  ∃ p res, EInvoke p (Ok res) ∈ tr ∧ Action p = "read"
           ∧ (("read" = "read" ∧ ID res = "" ∧ d' = rd_SetId d "")
              ∨ accepted d d' st' res).
Proof. intros Hrun. unfold resourceRemoteRead in Hrun. accepted_lemma Hrun. Qed.

Lemma update_accepted d st d' st' tr :
  resourceRemoteUpdate d st = (None, d', st', tr) →
  ∃ p res, EInvoke p (Ok res) ∈ tr ∧ Action p = "update"
           ∧ (("update" = "read" ∧ ID res = "" ∧ d' = rd_SetId d "")
              ∨ accepted d d' st' res).
Proof. intros Hrun. unfold resourceRemoteUpdate in Hrun. accepted_lemma Hrun. Qed.

End Accepted.

(** A create, a read or an update that succeeds has received a reply to its
    own request. Either it is a read whose reply has an empty id, and the id
    is cleared; or the reply has an id, its result has passed the response
    schema, and the id, the result with its values as strings, and the
    store are written. *)
Theorem accepted_reply_is_checked `{rt : Runtime} `{sv : Service}
    action op d st d' st' tr :
  (action, op) ∈ [("create", resourceRemoteCreate); ("read", resourceRemoteRead);
                  ("update", resourceRemoteUpdate)] →
  op d st = (None, d', st', tr) →
  ∃ p res, EInvoke p (Ok res) ∈ tr ∧ Action p = action
           ∧ ((action = "read" ∧ ID res = "" ∧ d' = rd_SetId d "")
              ∨ accepted d d' st' res).
Proof.
  intros Hop Hrun. rewrite !elem_of_cons, elem_of_nil in Hop.
  destruct Hop as [Hop|[Hop|[Hop|[]]]]; injection Hop as -> ->.
  - by eapply create_accepted.
  - by eapply read_accepted.
  - by eapply update_accepted.
Qed.

Section Calls.
Context `{rt : Runtime} `{sv : Service}.

Ltac calls_lemma Hrun :=
  run_op Hrun; split_traces; cbn;
  solve [repeat first [apply sublist_nil | apply sublist_skip | apply sublist_cons]].

Lemma create_calls d st :
  omap invoked_action (resourceRemoteCreate d st).2 `sublist_of` ["schema"; "create"].
Proof.
  destruct (resourceRemoteCreate d st) as [[[dg d'] st'] tr] eqn:Hrun.
  unfold resourceRemoteCreate in Hrun. calls_lemma Hrun.
Qed.

Lemma read_calls d st :
  omap invoked_action (resourceRemoteRead d st).2 `sublist_of` ["schema"; "read"].
Proof.
  destruct (resourceRemoteRead d st) as [[[dg d'] st'] tr] eqn:Hrun.
  unfold resourceRemoteRead in Hrun. calls_lemma Hrun.
Qed.

Lemma update_calls d st :
  omap invoked_action (resourceRemoteUpdate d st).2 `sublist_of` ["schema"; "update"].
Proof.
  destruct (resourceRemoteUpdate d st) as [[[dg d'] st'] tr] eqn:Hrun.
  unfold resourceRemoteUpdate in Hrun. calls_lemma Hrun.
Qed.

Lemma delete_calls d st :
  omap invoked_action (resourceRemoteDelete d st).2 `sublist_of` ["schema"; "delete"].
Proof.
  destruct (resourceRemoteDelete d st) as [[[dg d'] st'] tr] eqn:Hrun.
  unfold resourceRemoteDelete in Hrun. calls_lemma Hrun.
Qed.

Lemma CustomizeDiff_calls d st :
  omap invoked_action (CustomizeDiff d st).2 `sublist_of` ["diff"].
Proof.
  destruct (CustomizeDiff d st) as [[dg st'] tr] eqn:Hrun.
  unfold CustomizeDiff, emit in Hrun. calls_lemma Hrun.
Qed.

End Calls.

(** No operation calls the remote function more than twice, and none
    repeats a call: the remote calls of an operation are, in this order and
    each at most once, the schema fetch and the request of its own action;
    the diff hook makes at most its one [diff] request and never fetches the
    schema. *)
Theorem remote_calls_of_an_operation `{rt : Runtime} `{sv : Service}
    (d : ResourceData) (df : ResourceDiff) (st : cstate) :
  Forall (λ '(action, op),
            omap invoked_action (op d st).2 `sublist_of` ["schema"; action]) operations
  ∧ omap invoked_action (CustomizeDiff df st).2 `sublist_of` ["diff"].
Proof.
  split; [|apply CustomizeDiff_calls].
  unfold operations. rewrite !Forall_cons.
  repeat split; [apply create_calls|apply read_calls|apply update_calls
                |apply delete_calls|apply Forall_nil_2].
Qed.

Section Cached.
Context `{rt : Runtime} `{sv : Service}.

Ltac cached_lemma Honce Herr Hrun :=
  match type of Hrun with
  | context [parseArgsJSON ?v] => destruct (parseArgsJSON v) eqn:?
  end;
  run_op Hrun;
  repeat match goal with
  | H : once (client _) = true → _ |- _ => destruct (H Honce) as [-> ->]
  end;
  try congruence;
  repeat split; try done;
  match goal with
  | H : (_, Some _) = (_, _) |- _ => injection H as _ H; etrans; [exact H|exact Herr]
  end.

Lemma create_cached_error d st e dg d' st' tr :
  once (client st) = true → schemaErr (client st) = Some e →
  resourceRemoteCreate d st = (dg, d', st', tr) →
  tr = [] ∧ st' = st ∧ d' = d
  ∧ dg = Some (match parseArgsJSON (rd_Get d "args") with
               | Err e' => "create: " +:+ e'
               | Ok _ => e
               end).
Proof.
  intros Honce Herr Hrun. unfold resourceRemoteCreate in Hrun.
  cached_lemma Honce Herr Hrun.
Qed.

Lemma read_cached_error d st e dg d' st' tr :
  once (client st) = true → schemaErr (client st) = Some e →
  resourceRemoteRead d st = (dg, d', st', tr) →
  tr = [] ∧ st' = st ∧ d' = d
  ∧ dg = Some (match parseArgsJSON (rd_Get d "args") with
               | Err e' => "read: " +:+ e'
               | Ok _ => e
               end).
Proof.
  intros Honce Herr Hrun. unfold resourceRemoteRead in Hrun.
  cached_lemma Honce Herr Hrun.
Qed.

Lemma update_cached_error d st e dg d' st' tr :
  once (client st) = true → schemaErr (client st) = Some e →
  resourceRemoteUpdate d st = (dg, d', st', tr) →
  tr = [] ∧ st' = st ∧ d' = d
  ∧ dg = Some (match parseArgsJSON (rd_Get d "args") with
               | Err e' => "update: " +:+ e'
               | Ok _ => e
               end).
Proof.
  intros Honce Herr Hrun. unfold resourceRemoteUpdate in Hrun.
  cached_lemma Honce Herr Hrun.
Qed.

Lemma delete_cached_error d st e dg d' st' tr :
  once (client st) = true → schemaErr (client st) = Some e →
  resourceRemoteDelete d st = (dg, d', st', tr) →
  tr = [] ∧ st' = st ∧ d' = d
  ∧ dg = Some (match parseArgsJSON (rd_Get d "args") with
               | Err e' => "delete: " +:+ e'
               | Ok _ => e
               end).
Proof.
  intros Honce Herr Hrun. unfold resourceRemoteDelete in Hrun.
  cached_lemma Honce Herr Hrun.
Qed.

End Cached.

(** Once a schema fetch has failed, every later operation fails without a
    remote call and without touching the resource data or the client. Its
    diagnostic is the cached error of the fetch where the arguments of the
    resource decode; where they do not, it is the error of decoding them
    under the name of the operation, which the operation reports before it
    asks for the schema. *)
Theorem cached_fetch_error_fails_every_operation `{rt : Runtime} `{sv : Service}
    action op d st e dg d' st' tr :
  (action, op) ∈ operations →
  once (client st) = true →
  schemaErr (client st) = Some e →
  op d st = (dg, d', st', tr) →
  tr = [] ∧ st' = st ∧ d' = d
  ∧ dg = Some (match parseArgsJSON (rd_Get d "args") with
               | Err e' => action +:+ ": " +:+ e'
               | Ok _ => e
               end).
Proof.
  intros Hop Honce Herr Hrun. each_operation Hop.
  - by eapply create_cached_error.
  - by eapply read_cached_error.
  - by eapply update_cached_error.
  - by eapply delete_cached_error.
Qed.

(** ** The diff hook, continued *)

(** The hook forces the replacement of [args], and of nothing else, exactly
    when a [diff] reply came in with its replace flag set; it checks nothing
    against a schema. *)
Theorem replacement_follows_the_reply `{rt : Runtime} `{sv : Service}
    (d : ResourceDiff) st dg st' tr :
  CustomizeDiff d st = (dg, st', tr) →
  (EForceNew "args" ∈ tr ↔
     ∃ p res, EInvoke p (Ok res) ∈ tr ∧ Action p = "diff" ∧ Replace res = true)
  ∧ (∀ k, EForceNew k ∈ tr → k = "args")
  ∧ (∀ side, EValidate side ∉ tr).
Proof.
  intros Hrun. unfold CustomizeDiff, emit in Hrun.
  run_op Hrun; split_traces; (split; [|split]);
    try (intros ?; no_event); try (intros ? ?; no_event).
  all: try (split; [no_event|]; intros (? & ? & Hin & ? & ?); find_event Hin; congruence).
  all: split; [intros _|no_event]; eexists _, _;
    (split; [rewrite ?elem_of_app, ?elem_of_cons; auto 10|done]).
Qed.

(** ** The store across operations *)

Section Carried.
Context `{rt : Runtime} `{sv : Service}.

Ltac written_lemma Hrun Hin :=
  run_op Hrun; find_event Hin; done.

Lemma create_written d st d1 st1 t1 p res :
  resourceRemoteCreate d st = (None, d1, st1, t1) →
  EInvoke p (Ok res) ∈ t1 → Action p ≠ "schema" → ID res ≠ "" →
  setStoreAsJSONString (written d res) (RStore res) = (d1, None).
Proof. intros Hrun Hin ? ?. unfold resourceRemoteCreate in Hrun. written_lemma Hrun Hin. Qed.

Lemma read_written d st d1 st1 t1 p res :
  resourceRemoteRead d st = (None, d1, st1, t1) →
  EInvoke p (Ok res) ∈ t1 → Action p ≠ "schema" → ID res ≠ "" →
  setStoreAsJSONString (written d res) (RStore res) = (d1, None).
Proof. intros Hrun Hin ? ?. unfold resourceRemoteRead in Hrun. written_lemma Hrun Hin. Qed.

Lemma update_written d st d1 st1 t1 p res :
  resourceRemoteUpdate d st = (None, d1, st1, t1) →
  EInvoke p (Ok res) ∈ t1 → Action p ≠ "schema" → ID res ≠ "" →
  setStoreAsJSONString (written d res) (RStore res) = (d1, None).
Proof. intros Hrun Hin ? ?. unfold resourceRemoteUpdate in Hrun. written_lemma Hrun Hin. Qed.

Lemma delete_written d st d1 st1 t1 p res :
  resourceRemoteDelete d st = (None, d1, st1, t1) →
  EInvoke p (Ok res) ∈ t1 → Action p ≠ "schema" → ID res ≠ "" →
  setStoreAsJSONString (written d res) (RStore res) = (d1, None).
Proof. intros Hrun Hin ? ?. unfold resourceRemoteDelete in Hrun. written_lemma Hrun Hin. Qed.

Lemma decode_written_store d0 store d1 :
  setStoreAsJSONString d0 store = (d1, None) →
  match store with
  | None => decode_store (rd_GetOk d1 "store") = Some ∅
  | Some s => ∀ bytes, json_Marshal (VMap s) = Ok bytes → bytes ≠ "" →
                       json_Unmarshal bytes = Ok (VMap s) →
                       decode_store (rd_GetOk d1 "store") = Some s
  end.
Proof.
  unfold setStoreAsJSONString. destruct store as [s|].
  - destruct (json_Marshal (VMap s)) as [b|] eqn:Hm; [|done].
    intros [= <-] bytes [= <-] Hne Hu. rewrite decode_store_set.
    apply String.eqb_neq in Hne. rewrite Hne.
    unfold unmarshal_map. rewrite Hu. cbn. by rewrite (right_id_L ∅ (∪)).
  - intros [= <-]. by rewrite decode_store_set.
Qed.

End Carried.

(** The store of a reply comes back in the next request. When an operation
    has written a reply, the lifecycle request of whichever operation runs
    next on the resource data carries the store of that reply, provided its
    JSON text decodes to it again; and it carries the empty object when the
    reply had no store. *)
Theorem store_is_carried_to_the_next_request `{rt : Runtime} `{sv : Service}
    a1 op1 d st d1 st1 t1 p1 res a2 op2 st2 dg d2 st3 t2 p2 r2 :
  (a1, op1) ∈ operations →
  op1 d st = (None, d1, st1, t1) →
  EInvoke p1 (Ok res) ∈ t1 → Action p1 ≠ "schema" → ID res ≠ "" →
  (a2, op2) ∈ operations →
  op2 d1 st2 = (dg, d2, st3, t2) →
  EInvoke p2 r2 ∈ t2 → Action p2 ≠ "schema" →
  match RStore res with
  | None => Store p2 = Some ∅
  | Some s => ∀ bytes, json_Marshal (VMap s) = Ok bytes → bytes ≠ "" →
                       json_Unmarshal bytes = Ok (VMap s) →
                       Store p2 = Some s
  end.
Proof.
  intros Hop1 Hrun1 Hin1 Hp1 Hid Hop2 Hrun2 Hin2 Hp2.
  assert (setStoreAsJSONString (written d res) (RStore res) = (d1, None)) as Hset.
  { each_operation Hop1;
      eauto using create_written, read_written, update_written, delete_written. }
  pose proof (request_is_checked_and_complete _ _ _ _ _ _ _ _ _ _ Hop2 Hrun2 Hin2 Hp2)
    as [(args & _ & ->) _].
  cbn [Store]. apply (decode_written_store _ _ _ Hset).
Qed.

(** ** Provider configuration *)

(** Configuration fails exactly for a function given by name with no
    region; otherwise it yields a client for the given function with
    nothing fetched yet, whose first [getSchemas] asks the remote function
    for the schema (once the request marshals) and whose state records the
    attempt. *)
Theorem configured_client_fetches_first `{rt : Runtime} `{sv : Service}
    (lambdaName region : string) (s : lambda) :
  match configureProvider lambdaName region with
  | Err _ => String.prefix "arn:" lambdaName = false ∧ region = ""
  | Ok c =>
      (String.prefix "arn:" lambdaName = true ∨ region ≠ "")
      ∧ LambdaName c = lambdaName
      ∧ ∀ bytes, json_Marshal (payload_value schema_request) = Ok bytes →
          ∃ r st' o, getSchemas (mkState c s) = (r, st', [EInvoke schema_request o])
                     ∧ once (client st') = true
                     ∧ LambdaName (client st') = lambdaName
  end.
Proof.
  unfold configureProvider.
  destruct (String.prefix "arn:" lambdaName) eqn:Hp;
    [|destruct (String.eqb_spec region "")]; [| by subst |].
  all: split; [by auto|]; split; [done|]; intros bytes Hm.
  all: unfold getSchemas, mbind, M_bind, get_client, set_client, mret, M_mret;
    cbn [client once];
    pose proof (invokeLambda_run schema_request (mkState (mkClient lambdaName false None None) s))
      as Hrun; rewrite Hm in Hrun; cbn [client svc LambdaName] in Hrun;
    destruct (Svc_Invoke s lambdaName bytes) as [resp s'];
    fold schema_request; rewrite Hrun;
    destruct (outcome resp); cbn; eauto 10.
Qed.

(** ** Runs of the further properties *)

Lemma request_is_checked_and_complete_witness :
  let d := Fixture.data "i-1" (VArr [VStr (Fixture.q "{'name':'web'}")])
                        (VStr (Fixture.q "{'k':1}")) in
  let st := Fixture.world [Fixture.reply "{'result':{'request':{'required':['name']}}}";
                           Fixture.reply "{'result':{'id':'i-1'}}"] in
  let run := resourceRemoteUpdate (rt := Fixture.runtime) d st in
  let p := mkPayload "update" (Some {["name" := VStr "web"]}) (Some ∅)
                     (Some {["k" := VNum 1]}) false in
  let r := Ok (mkResponse "i-1" (Some {["id" := VStr "i-1"]}) None false "") in
  request_of (rt := Fixture.runtime) "update" d run.1.2 run.2 p r.
Proof.
  intros d st run p r.
  apply (request_is_checked_and_complete (rt := Fixture.runtime) "update"
           (resourceRemoteUpdate (rt := Fixture.runtime)) d st
           run.1.1.1 run.1.1.2 run.1.2 run.2 p r).
  - apply list_elem_of_further, list_elem_of_further, list_elem_of_here.
  - vm_compute. reflexivity.
  - vm_compute. repeat constructor.
  - discriminate.
Defined.

Lemma failed_operation_writes_nothing_witness :
  let d := Fixture.data "" (VArr [VStr (Fixture.q "{'size':1}")]) (VStr "") in
  let st := Fixture.world [Fixture.reply "{'result':{'request':{'required':['name']}}}"] in
  let run := resourceRemoteCreate (rt := Fixture.runtime) d st in
  run.1.1.2 = d
  ∨ store_write_failed (rt := Fixture.runtime) d run.1.1.2
      ("request failed schema validation:" +:+ nl +:+ "- name is required" +:+ nl) run.2.
Proof.
  intros d st run.
  apply (failed_operation_writes_nothing (rt := Fixture.runtime) "create"
           (resourceRemoteCreate (rt := Fixture.runtime)) d st _ run.1.1.2 run.1.2 run.2).
  - apply list_elem_of_here.
  - vm_compute. reflexivity.
Defined.

Lemma accepted_reply_is_checked_witness :
  let d := Fixture.data "" (VArr [VStr (Fixture.q "{'name':'web'}")]) (VStr "") in
  let st := Fixture.world [Fixture.reply "{'result':{'response':{'required':['id']}}}";
                           Fixture.reply "{'result':{'id':'i-1'},'store':{'k':1}}"] in
  let run := resourceRemoteCreate (rt := Fixture.runtime) d st in
  ∃ p res, EInvoke p (Ok res) ∈ run.2 ∧ Action p = "create"
           ∧ (("create" = "read" ∧ ID res = "" ∧ run.1.1.2 = rd_SetId d "")
              ∨ accepted (rt := Fixture.runtime) d run.1.1.2 run.1.2 res).
Proof.
  intros d st run.
  apply (accepted_reply_is_checked (rt := Fixture.runtime) "create"
           (resourceRemoteCreate (rt := Fixture.runtime)) d st run.1.1.2 run.1.2 run.2).
  - apply list_elem_of_here.
  - vm_compute. reflexivity.
Defined.

Lemma cached_fetch_error_fails_every_operation_witness :
  let d := Fixture.data "i-1" (VArr [VStr (Fixture.q "{'name':'web'}")]) (VStr "") in
  let st := @mkState Fixture.service (mkClient "handler" true None (Some "timeout"))
                       [Fixture.reply "{'result':{'id':'i-1'}}"] in
  let run := resourceRemoteRead (rt := Fixture.runtime) d st in
  run.2 = [] ∧ run.1.2 = st ∧ run.1.1.2 = d ∧ run.1.1.1 = Some "timeout".
Proof.
  intros d st run.
  apply (cached_fetch_error_fails_every_operation (rt := Fixture.runtime) "read"
           (resourceRemoteRead (rt := Fixture.runtime)) d st "timeout"
           run.1.1.1 run.1.1.2 run.1.2 run.2).
  - apply list_elem_of_further, list_elem_of_here.
  - reflexivity.
  - reflexivity.
  - vm_compute. reflexivity.
Defined.

(** The same client, and arguments that do not decode: the update reports
    them under its name, not the cached error of the fetch. *)
Example undecodable_args_are_reported_first :
  let d := Fixture.data "i-1" (VStr "{") (VStr "") in
  let st := @mkState Fixture.service (mkClient "handler" true None (Some "timeout"))
                       [Fixture.reply "{'result':{'id':'i-1'}}"] in
  ∃ e', parseArgsJSON (rt := Fixture.runtime) (rd_Get d "args") = Err e'
        ∧ resourceRemoteUpdate (rt := Fixture.runtime) d st
          = (Some ("update: " +:+ e'), d, st, []).
Proof. eexists. split; vm_compute; reflexivity. Qed.

Lemma replacement_follows_the_reply_witness :
  let d := mkDiff {["args" := VStr (Fixture.q "{'type':'large'}")]}
                  {["args" := VStr (Fixture.q "{'type':'small'}")]} in
  let st := Fixture.world [Fixture.reply "{'replace':true,'reason':'type changed'}"] in
  let run := CustomizeDiff (rt := Fixture.runtime) d st in
  (EForceNew "args" ∈ run.2 ↔
     ∃ p res, EInvoke p (Ok res) ∈ run.2 ∧ Action p = "diff" ∧ Replace res = true)
  ∧ (∀ k, EForceNew k ∈ run.2 → k = "args")
  ∧ (∀ side, EValidate side ∉ run.2).
Proof.
  intros d st run.
  apply (replacement_follows_the_reply (rt := Fixture.runtime) d st run.1.1 run.1.2 run.2).
  vm_compute. reflexivity.
Defined.

Lemma store_is_carried_to_the_next_request_witness :
  let d := Fixture.data "" (VArr [VStr (Fixture.q "{'name':'web'}")]) (VStr "") in
  let st := Fixture.world [Fixture.reply "{'result':{}}";
                           Fixture.reply "{'result':{'id':'i-1'},'store':{'k':1}}"] in
  let run1 := resourceRemoteCreate (rt := Fixture.runtime) d st in
  let run2 := resourceRemoteRead (rt := Fixture.runtime) run1.1.1.2 run1.1.2 in
  let p2 := mkPayload "read" (Some {["name" := VStr "web"]}) (Some ∅)
                      (Some {["k" := VNum 1]}) false in
  Store p2 = Some {["k" := VNum 1]}.
Proof.
  intros d st run1 run2 p2.
  refine (store_is_carried_to_the_next_request (rt := Fixture.runtime)
           "create" (resourceRemoteCreate (rt := Fixture.runtime)) d st
           run1.1.1.2 run1.1.2 run1.2
           (mkPayload "create" (Some {["name" := VStr "web"]}) (Some ∅) (Some ∅) false)
           (mkResponse "i-1" (Some {["id" := VStr "i-1"]}) (Some {["k" := VNum 1]}) false "")
           "read" (resourceRemoteRead (rt := Fixture.runtime)) run1.1.2
           run2.1.1.1 run2.1.1.2 run2.1.2 run2.2 p2
           (Err "RequestError: send request failed")
           _ _ _ _ _ _ _ _ _
           (Fixture.print_value (VMap {["k" := VNum 1]})) _ _ _).
  - apply list_elem_of_here.
  - vm_compute. reflexivity.
  - vm_compute. repeat constructor.
  - discriminate.
  - discriminate.
  - apply list_elem_of_further, list_elem_of_here.
  - vm_compute. reflexivity.
  - vm_compute. repeat constructor.
  - discriminate.
  - reflexivity.
  - by vm_compute.
  - vm_compute. reflexivity.
Defined.

Lemma configured_client_fetches_first_witness :
  ∃ r st' o,
    getSchemas (rt := Fixture.runtime)
      (@mkState Fixture.service (mkClient "CoderEc2WorkspaceHandler" false None None)
               [Fixture.reply "{'result':{}}"])
    = (r, st', [EInvoke schema_request o])
    ∧ once (client st') = true
    ∧ LambdaName (client st') = "CoderEc2WorkspaceHandler".
Proof.
  apply (proj2 (proj2 (configured_client_fetches_first (rt := Fixture.runtime)
                         (sv := Fixture.service)
                         "CoderEc2WorkspaceHandler" "us-east-1"
                         [Fixture.reply "{'result':{}}"]))
           (Fixture.print_value (payload_value schema_request))).
  reflexivity.
Defined.

Lemma operations_keep_cache_witness :
  let d := Fixture.data "i-1" (VArr [VStr (Fixture.q "{'name':'web'}")]) (VStr "") in
  let st := @mkState Fixture.service
              (mkClient "handler" true (Some (mkSchemaResponse None None)) None)
              [Fixture.reply "{'result':{'id':'i-1'}}"] in
  let run := resourceRemoteRead (rt := Fixture.runtime) d st in
  client run.1.2 = client st ∧ ∀ p o, EInvoke p o ∈ run.2 → Action p ≠ "schema".
Proof.
  intros d st run.
  apply (operations_keep_cache (rt := Fixture.runtime)
           (resourceRemoteRead (rt := Fixture.runtime)) d st
           run.1.1.1 run.1.1.2 run.1.2 run.2).
  - apply list_elem_of_further, list_elem_of_here.
  - reflexivity.
  - vm_compute. reflexivity.
Defined.

Lemma diff_skipped_without_prior_witness :
  let d := mkDiff {["args" := VStr (Fixture.q "{'type':'large'}")]}
                  {["args" := VStr "{}"]} in
  let st := Fixture.world [Fixture.reply "{'replace':true}"] in
  (CustomizeDiff (rt := Fixture.runtime) d st).2 = []
  ∧ (CustomizeDiff (rt := Fixture.runtime) d st).1.2 = st.
Proof.
  intros d st.
  apply (diff_skipped_without_prior (rt := Fixture.runtime) d st).
  vm_compute. right. right. reflexivity.
Defined.

